(** * Show Up API: the crawl-job registry and the event query surface

  A shallow embedding of [crawler.py], [router.py] and [models.py].

  - The module-level dict [jobs] is a [gmap string string] threaded through
    every handler: a handler takes the registry and returns the registry it
    leaves behind together with its HTTP answer.
  - [datetime.now()] and [uuid.uuid4()] are inputs of the handler that reads
    them.
  - The MongoDB collection and the pydantic validation of [EventOut] are
    libraries outside the repository; their semantics are parameters of the
    event handlers: which filters the store runs and which it refuses with
    an error, which records a filter matches, and which records validate. *)

From Stdlib Require Import String Ascii NArith ZArith List Lia.
From stdpp Require Import base option list strings gmap fin_maps pretty.

Local Open Scope N_scope.

(** ** Python values and library functions the handlers use *)
Module Py.

(** What a request is answered with: the body the handler returns; the
    [HTTPException] it raises; FastAPI's 422 naming the query parameters that
    break their [Query] bounds, in which case the handler is not run; or the
    plain 500 [Internal Server Error] the server gives when any other
    exception leaves the handler. *)
Inductive response (A : Type) : Type :=
| Ok (body : A)
| HTTPException (status_code : N) (detail : string)
| RequestValidationError (params : list string)
| InternalServerError.
Arguments Ok {A} body.
Arguments HTTPException {A} status_code detail.
Arguments RequestValidationError {A} params.
Arguments InternalServerError {A}.

Fixpoint string_forallb (p : ascii -> bool) (s : string) : bool :=
  match s with
  | EmptyString => true
  | String c s' => p c && string_forallb p s'
  end.

Definition is_digit (c : ascii) : bool :=
  let n := N_of_ascii c in (48 <=? n) && (n <=? 57).

(** The characters of [%x]: digits and lower-case a to f. *)
Definition is_lower_hex (c : ascii) : bool :=
  let n := N_of_ascii c in
  is_digit c || ((97 <=? n) && (n <=? 102)).

Definition digit_char (d : N) : ascii :=
  if d <? 10 then ascii_of_N (48 + d) else ascii_of_N (87 + d).

(** The [w] low digits of [n] in base [base], most significant first. *)
Fixpoint fixed_digits (base : N) (w : nat) (n : N) : string :=
  match w with
  | O => ""
  | S w' => fixed_digits base w' (n / base) +:+ String (digit_char (n mod base)) ""
  end.

(** A decimal number padded with zeros to width [w], as [strftime] prints a
    field: below [10^w] these are the [w] digits, from there on the plain
    decimal. *)
Definition zero_padded (w : nat) (n : N) : string :=
  if n <? 10 ^ N.of_nat w then fixed_digits 10 w n else pretty n.

(** The fields of a [datetime] that the format reads. *)
Record datetime : Type := {
  year : N; month : N; day : N; hour : N; minute : N; second : N
}.

(** The ranges the [datetime] type keeps its fields in, for a year of four
    digits (how [%Y] prints an earlier year depends on the platform). *)
Definition valid_datetime (t : datetime) : Prop :=
  1000 <= year t <= 9999 /\ 1 <= month t <= 12 /\ 1 <= day t <= 31 /\
  hour t <= 23 /\ minute t <= 59 /\ second t <= 59.

(** [t.strftime("%Y%m%d_%H%M%S")] *)
Definition strftime_Ymd_HMS (t : datetime) : string :=
  zero_padded 4 (year t) +:+ zero_padded 2 (month t) +:+ zero_padded 2 (day t)
  +:+ "_" +:+
  zero_padded 2 (hour t) +:+ zero_padded 2 (minute t) +:+ zero_padded 2 (second t).

(** [str(u)] for a [uuid.UUID] whose 128-bit [int] is [u]:
    ['%032x' % u] cut into groups of 8-4-4-4-12. *)
Definition uuid_str (u : N) : string :=
  let hex := fixed_digits 16 32 u in
  String.substring 0 8 hex +:+ "-" +:+ String.substring 8 4 hex +:+ "-" +:+
  String.substring 12 4 hex +:+ "-" +:+ String.substring 16 4 hex +:+ "-" +:+
  String.substring 20 12 hex.

(** [s[:n]] *)
Definition slice_to (n : nat) (s : string) : string := String.substring 0 n s.

(** [repr] of a [str] made of printable characters other than quote and
    backslash, the only strings it is applied to here. *)
Definition repr_str (s : string) : string := "'" +:+ s +:+ "'".

Fixpoint join (sep : string) (l : list string) : string :=
  match l with
  | [] => ""
  | [x] => x
  | x :: l' => x +:+ sep +:+ join sep l'
  end.

(** [str] of a list of strings, as an f-string formats it. *)
Definition str_list (l : list string) : string :=
  "[" +:+ join ", " (map repr_str l) +:+ "]".

(** [s.replace(c, by)] for a one-character [c]. *)
Fixpoint replace_char (c : ascii) (by_ : string) (s : string) : string :=
  match s with
  | EmptyString => ""
  | String a s' =>
      if Ascii.eqb a c then by_ +:+ replace_char c by_ s'
      else String a (replace_char c by_ s')
  end.

(** [s1 in s2] for strings. *)
Definition contains (needle hay : string) : Prop :=
  exists pre post, hay = pre +:+ needle +:+ post.

End Py.
Import Py.

(** ** models.py *)
Module Models.

Record CrawlRequest : Type := {
  urls : option (list string);
  spider : string
}.

(** [CrawlRequest()]: the field defaults. *)
Definition CrawlRequest_default : CrawlRequest :=
  {| urls := None; spider := "luma" |}.

Record CrawlResponse : Type := {
  job_id : string;
  status : string
}.

End Models.
Import Models.

(** ** crawler.py *)
Module Crawler.

(** [jobs: dict[str, str]], job id to status. *)
Abbreviation registry := (gmap string string).

Definition _generate_job_id (now : datetime) (uuid4 : N) (spider_name : string)
  : string :=
  let timestamp := strftime_Ymd_HMS now in
  let unique_id := slice_to 8 (uuid_str uuid4) in
  "crawl_" +:+ timestamp +:+ "_" +:+ spider_name +:+ "_" +:+ unique_id.

Definition available_spiders : list string := ["luma"; "eventbrite"].

(** [POST /crawl].  The lines that would create the background task are
    commented out in the source, so the handler ends after the registry
    write. *)
Definition trigger_crawl (now : datetime) (uuid4 : N)
    (request : option CrawlRequest) (jobs : registry)
  : registry * response CrawlResponse :=
  let request := default CrawlRequest_default request in
  let spider_name := spider request in
  if bool_decide (spider_name ∈ available_spiders) then
    let job_id := _generate_job_id now uuid4 spider_name in
    (<[job_id := "pending"]> jobs,
     Ok {| job_id := job_id; status := "pending" |})
  else
    (jobs,
     HTTPException 400
       ("Spider '" +:+ spider_name +:+ "' not found. Available: "
        +:+ str_list available_spiders)).

(** [GET /crawl/{job_id}]; the body is the returned dict, in key order. *)
Definition get_crawl_status (job_id : string) (jobs : registry)
  : response (list (string * string)) :=
  match jobs !! job_id with
  | None => HTTPException 404 ("Job '" +:+ job_id +:+ "' not found")
  | Some st => Ok [("job_id", job_id); ("status", st)]
  end.

(** One turn of the counting loop:
    [status_counts[status] = status_counts.get(status, 0) + 1]. *)
Definition count_status (status_counts : gmap string nat) (status : string)
  : gmap string nat :=
  <[status := (default 0 (status_counts !! status) + 1)%nat]> status_counts.

Definition count_statuses (statuses : list string) : gmap string nat :=
  foldl count_status ∅ statuses.

Record job_listing : Type := {
  listed_jobs : registry;
  total_jobs : nat;
  status_summary : gmap string nat
}.

(** [jobs.values()] *)
Definition values (jobs : registry) : list string := (map_to_list jobs).*2.

(** [GET /crawl] *)
Definition list_crawl_jobs (jobs : registry) : job_listing :=
  let status_counts := count_statuses (values jobs) in
  {| listed_jobs := jobs; total_jobs := size jobs;
     status_summary := status_counts |}.

(** [DELETE /crawl/{job_id}] *)
Definition cancel_crawl_job (job_id : string) (jobs : registry)
  : registry * response (list (string * string)) :=
  match jobs !! job_id with
  | None => (jobs, HTTPException 404 ("Job '" +:+ job_id +:+ "' not found"))
  | Some _ =>
      (delete job_id jobs,
       Ok [("message", "Job '" +:+ job_id +:+ "' has been removed");
           ("job_id", job_id)])
  end.

(** *** The execution stub

    [_run_spider_async] is a coroutine: it writes to the registry, awaits two
    sleeps and prints.  Each awaited sleep and each [print] either completes or
    raises, and while the stub is suspended in a sleep the other tasks of the
    event loop may change the registry; all of this is the environment's
    choice, given to the stub as a [stub_env].  [ghost_writes] records the
    registry writes of the stub in order; it is not part of the program's
    state. *)

(** A raised Python exception: whether it is an instance of [Exception]
    (what [except Exception] catches) or only of [BaseException], such as
    [asyncio.CancelledError] and [KeyboardInterrupt], and its [str]. *)
Record py_exc : Type := {
  is_Exception : bool;
  exc_str : string
}.

Inductive outcome : Type :=
| Completes
| Raises (e : py_exc).

(** An await: what the other tasks do to the registry while the stub is
    suspended, and how the stub is resumed. *)
Record suspension : Type := {
  meanwhile : registry -> registry;
  resumed : outcome
}.

Record stub_env : Type := {
  sleep_startup : suspension;   (* await asyncio.sleep(1) *)
  print_starting : outcome;     (* print("Starting spider ...") *)
  sleep_crawl : suspension;     (* await asyncio.sleep(crawl_duration) *)
  print_completed : outcome;    (* print("... completed successfully") *)
  print_failed : outcome        (* print("... failed: ...") in the handler *)
}.

Record world : Type := {
  w_jobs : registry;
  w_stdout : list string;
  ghost_writes : list (string * string)
}.

Inductive completion (A : Type) : Type :=
| Returns (a : A)
| Propagates (e : py_exc).
Arguments Returns {A} a.
Arguments Propagates {A} e.

Definition task (A : Type) : Type := world -> world * completion A.

#[local] Instance task_ret : MRet task := fun A a w => (w, Returns a).

#[local] Instance task_bind : MBind task := fun A B k m w =>
  match m w with
  | (w', Returns a) => k a w'
  | (w', Propagates e) => (w', Propagates e)
  end.

(** [jobs[job_id] = status] *)
Definition set_job (job_id status : string) : task unit := fun w =>
  ({| w_jobs := <[job_id := status]> (w_jobs w);
      w_stdout := w_stdout w;
      ghost_writes := ghost_writes w ++ [(job_id, status)] |},
   Returns tt).

(** [await asyncio.sleep(seconds)] *)
Definition sleep (s : suspension) (seconds : N) : task unit := fun w =>
  let w' := {| w_jobs := meanwhile s (w_jobs w); w_stdout := w_stdout w;
               ghost_writes := ghost_writes w |} in
  match resumed s with
  | Completes => (w', Returns tt)
  | Raises e => (w', Propagates e)
  end.

(** [print(msg)] *)
Definition print (o : outcome) (msg : string) : task unit := fun w =>
  match o with
  | Completes =>
      ({| w_jobs := w_jobs w; w_stdout := w_stdout w ++ [msg];
          ghost_writes := ghost_writes w |},
       Returns tt)
  | Raises e => (w, Propagates e)
  end.

(** [try: body  except Exception as e: handler e] *)
Definition try_except_Exception (body : task unit) (handler : py_exc -> task unit)
  : task unit := fun w =>
  match body w with
  | (w', Propagates e) =>
      if is_Exception e then handler e w' else (w', Propagates e)
  | r => r
  end.

(** The stub.  [async with AsyncExitStack()] enters and leaves an empty stack,
    which runs nothing and lets an exception of its body through. *)
Definition _run_spider_async (env : stub_env)
    (spider_name job_id : string) (settings : gmap string string) : task unit :=
  try_except_Exception
    (set_job job_id "running" ;;
     sleep (sleep_startup env) 1 ;;
     print (print_starting env)
       ("Starting spider " +:+ spider_name +:+ " with job_id " +:+ job_id) ;;
     let crawl_duration := 3 in
     sleep (sleep_crawl env) crawl_duration ;;
     set_job job_id "completed" ;;
     print (print_completed env)
       ("Spider " +:+ spider_name +:+ " completed successfully"))
    (fun e =>
     set_job job_id "failed" ;;
     print (print_failed env)
       ("Spider " +:+ spider_name +:+ " failed: " +:+ exc_str e)).

(** *** The application: every request it serves

    [main.py] mounts the router and nothing else; no code starts a task, so the
    registry changes only through these handlers. *)
Inductive request : Type :=
| POST_crawl (now : datetime) (uuid4 : N) (body : option CrawlRequest)
| GET_crawl_job (job_id : string)
| GET_crawl
| DELETE_crawl_job (job_id : string).

Definition serve (r : request) (jobs : registry) : registry :=
  match r with
  | POST_crawl now uuid4 body => (trigger_crawl now uuid4 body jobs).1
  | GET_crawl_job _ => jobs
  | GET_crawl => jobs
  | DELETE_crawl_job job_id => (cancel_crawl_job job_id jobs).1
  end.

(** The registry after a history of requests, from the empty registry the
    module starts with. *)
Definition registry_after (history : list request) : registry :=
  foldl (fun jobs r => serve r jobs) ∅ history.

End Crawler.
Import Crawler.

(** ** router.py: the event query surface *)
Module Router.

(** A condition a filter dict puts on one field: [{"$regex": p, "$options": o}]
    or a plain value to compare with. *)
Inductive condition : Type :=
| Regex (pattern options : string)
| Equals (v : string).

Abbreviation filter_dict := (gmap string condition).

(** The response of [GET /events]: the serialised events and the headers the
    handler sets. *)
Record JSONResponse (json : Type) : Type := {
  content_events : list json;
  headers : gmap string string
}.
Arguments content_events {json} _.
Arguments headers {json} _.

(** What a call of the store gives: its answer, or the error the driver
    raises. *)
Inductive store_answer (A : Type) : Type :=
| Answer (a : A)
| OperationFailure.
Arguments Answer {A} a.
Arguments OperationFailure {A}.

Section EventStore.

(** The values a stored field can hold. *)
Context {value : Type}.
Abbreviation document := (gmap string value).

(** MongoDB: whether the server runs a query with this filter dict (it
    refuses one whose [$regex] does not compile, and the driver then raises
    [OperationFailure]), and its matching of a document against a filter. *)
Context (store_accepts : filter_dict -> bool).
Context (doc_matches : filter_dict -> document -> bool).

(** pydantic: building an [EventOut] from the record's fields returns the
    model or raises; the error is kept as its [str].  [model_dump] serialises the model. *)
Context {EventOutT json : Type}.
Context (EventOut : document -> EventOutT + string).
Context (model_dump : EventOutT -> json).

(** [db.count_documents(filters)] on a collection holding [coll]. *)
Definition count_documents (filters : filter_dict) (coll : list document)
  : store_answer nat :=
  if store_accepts filters
  then Answer (length (List.filter (doc_matches filters) coll))
  else OperationFailure.

(** [db.find(filters)], read through: the records the cursor yields. *)
Definition find (filters : filter_dict) (coll : list document)
  : store_answer (list document) :=
  if store_accepts filters
  then Answer (List.filter (doc_matches filters) coll)
  else OperationFailure.

(** [cursor.skip(n)] and [cursor.limit(n)] for the [n] the handler passes. *)
Definition cursor_skip (n : Z) (c : list document) : list document :=
  drop (Z.to_nat n) c.
Definition cursor_limit (n : Z) (c : list document) : list document :=
  take (Z.to_nat n) c.

(** [db.find_one(filters)] *)
Definition find_one (filters : filter_dict) (coll : list document)
  : store_answer (option document) :=
  if store_accepts filters
  then Answer (head (List.filter (doc_matches filters) coll))
  else OperationFailure.

(** [if param:] for an optional string: given and not empty. *)
Definition given (param : option string) : option string :=
  match param with
  | Some EmptyString => None
  | other => other
  end.

Definition build_filters (city country event_type organizer : option string)
  : filter_dict :=
  let filters : filter_dict := ∅ in
  let filters :=
    match given city with
    | Some c => <["city" := Regex c "i"]> filters
    | None => filters
    end in
  let filters :=
    match given country with
    | Some c => <["country" := Regex c "i"]> filters
    | None => filters
    end in
  let filters :=
    match given event_type with
    | Some t => <["event_type" := Equals t]> filters
    | None => filters
    end in
  match given organizer with
  | Some o => <["organizer" := Regex o "i"]> filters
  | None => filters
  end.

(** The loop body of [get_events]: drop [_id], validate, keep the dump or skip
    the record. *)
Definition map_event (event : document) : option json :=
  match EventOut (delete "_id" event) with
  | inl event_out => Some (model_dump event_out)
  | inr _ => None
  end.

(** The query parameters that break their bounds: [limit] is declared
    [Query(ge=1, le=100)] and [skip] [Query(ge=0)]. *)
Definition invalid_params (limit skip : Z) : list string :=
  (if (1 <=? limit)%Z && (limit <=? 100)%Z then [] else ["limit"])
  ++ (if (0 <=? skip)%Z then [] else ["skip"]).

(** [GET /events].  The two store calls stand outside the [try] of the loop
    body, so an error of the store leaves the handler. *)
Definition get_events (coll : list document) (limit skip : Z)
    (city country event_type organizer : option string)
  : response (JSONResponse json) :=
  match invalid_params limit skip with
  | (_ :: _) as params => RequestValidationError params
  | [] =>
      let filters := build_filters city country event_type organizer in
      match count_documents filters coll with
      | OperationFailure => InternalServerError
      | Answer total_events =>
          match find filters coll with
          | OperationFailure => InternalServerError
          | Answer found =>
              let events_cursor := cursor_limit limit (cursor_skip skip found) in
              let events := omap map_event events_cursor in
              let hdrs : gmap string string := ∅ in
              let hdrs := <["X-Total-Count" := pretty total_events]> hdrs in
              let hdrs := <["X-Limit" := pretty limit]> hdrs in
              let hdrs := <["X-Skip" := pretty skip]> hdrs in
              let hdrs :=
                if (skip + limit <? Z.of_nat total_events)%Z
                then <["X-Has-More" := "true"]> hdrs
                else <["X-Has-More" := "false"]> hdrs in
              Ok {| content_events := events; headers := hdrs |}
          end
      end
  end.

(** The record [get_event] answers with: by [api_id], else by title.  The id
    goes into the pattern as it is, hyphens apart. *)
Definition lookup_event (coll : list document) (api_id : string)
  : store_answer (option document) :=
  match find_one {["api_id" := Equals api_id]} coll with
  | OperationFailure => OperationFailure
  | Answer (Some event) => Answer (Some event)
  | Answer None =>
      find_one
        {["title" := Regex (replace_char "-"%char "\s+" api_id) "i"]} coll
  end.

(** [GET /events/{api_id}].  Both lookups stand before the [try], which
    encloses the validation only. *)
Definition get_event (coll : list document) (api_id : string) : response json :=
  match lookup_event coll api_id with
  | OperationFailure => InternalServerError
  | Answer None => HTTPException 404 "Event not found"
  | Answer (Some event) =>
      match EventOut (delete "_id" event) with
      | inl event_out => Ok (model_dump event_out)
      | inr e => HTTPException 500 ("Error processing event data: " +:+ e)
      end
  end.

End EventStore.

End Router.

(** ** Notions the properties are stated with *)
Module Props.

(** [strip_prefix p s]: what follows [p] in [s], when [s] starts with [p]. *)
Fixpoint strip_prefix (p s : string) : option string :=
  match p, s with
  | EmptyString, _ => Some s
  | String a p', String b s' => if Ascii.eqb a b then strip_prefix p' s' else None
  | String _ _, EmptyString => None
  end.

(** The first [n] characters and the rest, when there are [n]. *)
Fixpoint split_at (n : nat) (s : string) : option (string * string) :=
  match n, s with
  | O, _ => Some (EmptyString, s)
  | S n', String c s' =>
      match split_at n' s' with
      | Some (a, b) => Some (String c a, b)
      | None => None
      end
  | S _, EmptyString => None
  end.

(** The id pattern as the specification words it:
    [crawl_<14-digit-datetime>_<spider>_<8-hex>], fourteen digits in a row. *)
Definition claimed_job_id_pattern (spider_name job_id : string) : bool :=
  match strip_prefix "crawl_" job_id with
  | None => false
  | Some rest =>
      match split_at 14 rest with
      | None => false
      | Some (stamp, rest) =>
          string_forallb is_digit stamp &&
          match strip_prefix ("_" +:+ spider_name +:+ "_") rest with
          | None => false
          | Some suffix =>
              Nat.eqb (String.length suffix) 8 && string_forallb is_lower_hex suffix
          end
      end
  end.

(** The sum of the counts of a status summary. *)
Definition sum_counts (counts : gmap string nat) : nat :=
  map_fold (fun _ n acc => (n + acc)%nat) 0%nat counts.

(** All three [print] calls of the stub succeed. *)
Definition prints_complete (env : stub_env) : Prop :=
  print_starting env = Completes /\ print_completed env = Completes
  /\ print_failed env = Completes.

(** The first error an awaited operation raises, if one does. *)
Definition first_raise (env : stub_env) : option py_exc :=
  match resumed (sleep_startup env), resumed (sleep_crawl env) with
  | Raises e, _ => Some e
  | Completes, Raises e => Some e
  | Completes, Completes => None
  end.

(** The stub as the specification words it: it returns normally, having
    written running and then exactly one of completed and failed. *)
Definition claimed_stub_run (job_id : string) (before : world)
    (run : world * completion unit) : Prop :=
  run.2 = Returns tt
  /\ (ghost_writes run.1
        = ghost_writes before ++ [(job_id, "running"); (job_id, "completed")]
      \/ ghost_writes run.1
        = ghost_writes before ++ [(job_id, "running"); (job_id, "failed")]).

End Props.
Import Props.

(** ** Concrete inputs used in the examples *)
Module Examples.

(** 2024-01-01 12:34:56 *)
Definition new_year_noon : datetime :=
  {| year := 2024; month := 1; day := 1; hour := 12; minute := 34; second := 56 |}.

(** The UUID 1234abcd-0000-4000-8000-000000000000. *)
Definition some_uuid : N := 0x1234abcd000040008000000000000000.

Definition eventbrite_request : CrawlRequest :=
  {| urls := None; spider := "eventbrite" |}.

Definition eventbrite_with_urls : CrawlRequest :=
  {| urls := Some ["https://www.eventbrite.com/d/online/all-events/"];
     spider := "eventbrite" |}.

Definition meetup_request : CrawlRequest :=
  {| urls := Some ["https://example.org/e/1"]; spider := "meetup" |}.

Definition CancelledError : py_exc :=
  {| is_Exception := false; exc_str := "" |}.

Definition BrokenPipeError : py_exc :=
  {| is_Exception := true; exc_str := "[Errno 32] Broken pipe" |}.

Definition TimeoutError : py_exc :=
  {| is_Exception := true; exc_str := "timed out" |}.

(** A sleep during which no other task touches the registry. *)
Definition undisturbed (o : outcome) : suspension :=
  {| meanwhile := fun jobs => jobs; resumed := o |}.

(** Nothing raises. *)
Definition calm : stub_env :=
  {| sleep_startup := undisturbed Completes; print_starting := Completes;
     sleep_crawl := undisturbed Completes; print_completed := Completes;
     print_failed := Completes |}.

(** The task is cancelled while it awaits the first sleep. *)
Definition cancelled_at_startup : stub_env :=
  {| sleep_startup := undisturbed (Raises CancelledError);
     print_starting := Completes;
     sleep_crawl := undisturbed Completes; print_completed := Completes;
     print_failed := Completes |}.

(** The awaited crawl raises an ordinary error. *)
Definition crawl_times_out : stub_env :=
  {| sleep_startup := undisturbed Completes; print_starting := Completes;
     sleep_crawl := undisturbed (Raises TimeoutError);
     print_completed := Completes; print_failed := Completes |}.

(** [DELETE /crawl/crawl_x] is served while the stub awaits the crawl. *)
Definition deleted_during_crawl : stub_env :=
  {| sleep_startup := undisturbed Completes; print_starting := Completes;
     sleep_crawl :=
       {| meanwhile := fun jobs => (cancel_crawl_job "crawl_x" jobs).1;
          resumed := Completes |};
     print_completed := Completes; print_failed := Completes |}.

(** Standard output is a closed pipe when the success message is printed. *)
Definition stdout_breaks_after_completed : stub_env :=
  {| sleep_startup := undisturbed Completes; print_starting := Completes;
     sleep_crawl := undisturbed Completes;
     print_completed := Raises BrokenPipeError; print_failed := Completes |}.

(** Standard output is a closed pipe throughout. *)
Definition stdout_closed : stub_env :=
  {| sleep_startup := undisturbed Completes;
     print_starting := Raises BrokenPipeError;
     sleep_crawl := undisturbed Completes;
     print_completed := Raises BrokenPipeError;
     print_failed := Raises BrokenPipeError |}.

(** A registry holding one pending job, nothing printed yet. *)
Definition one_pending_job : world :=
  {| w_jobs := {["crawl_x" := "pending"]}; w_stdout := []; ghost_writes := [] |}.

(** A store of string-valued records whose filter matches everything, and
    a validation that rejects the records with a [broken] field. *)
Definition match_all (f : Router.filter_dict) (d : gmap string string) : bool :=
  true.

Definition reject_broken (d : gmap string string)
  : gmap string string + string :=
  match d !! "broken" with
  | Some _ => inr "1 validation error for EventOut"
  | None => inl d
  end.

Definition three_events : list (gmap string string) :=
  [ {["title" := "Rust meetup"]};
    {["title" := "Py night"; "broken" := "yes"]};
    {["title" := "Go day"]} ].

End Examples.
Import Examples.

(** ** Further inputs *)
Module MoreExamples.

(** A UUID that differs from [some_uuid] below its 32 high bits. *)
Definition uuid_sharing_high_bits : N := 0x1234abcdffff4fffbfffffffffffffff.

(** A store that takes every filter. *)
Definition accept_all (f : Router.filter_dict) : bool := true.

(** Every [opening] character of the pattern is closed by a later
    [closing] one. *)
Fixpoint balanced (opening closing : ascii) (depth : nat) (pattern : string)
  : bool :=
  match pattern with
  | EmptyString => Nat.eqb depth 0
  | String c rest =>
      if Ascii.eqb c opening then balanced opening closing (S depth) rest
      else if Ascii.eqb c closing then
        match depth with
        | O => false
        | S depth' => balanced opening closing depth' rest
        end
      else balanced opening closing depth rest
  end.

Definition pattern_compiles (c : Router.condition) : bool :=
  match c with
  | Router.Regex pattern _ =>
      balanced "("%char ")"%char 0 pattern && balanced "["%char "]"%char 0 pattern
  | Router.Equals _ => true
  end.

(** A store that refuses a filter with a regex whose parentheses or brackets
    are not closed, as MongoDB does. *)
Definition refuse_unclosed (f : Router.filter_dict) : bool :=
  forallb
    (fun key => match f !! key with
                | Some c => pattern_compiles c
                | None => true
                end)
    ["api_id"; "title"; "city"; "country"; "event_type"; "organizer"].

(** A matching that compares the fields a filter names for equality and lets
    no regex match. *)
Definition match_equal (f : Router.filter_dict) (d : gmap string string) : bool :=
  forallb
    (fun key => match f !! key with
                | Some (Router.Equals v) => bool_decide (d !! key = Some v)
                | Some (Router.Regex _ _) => false
                | None => true
                end)
    ["api_id"; "title"; "city"; "country"; "event_type"; "organizer"].

End MoreExamples.
Import MoreExamples.

(** ** Further notions *)
Module MoreProps.

(** The requests that submit a crawl. *)
Definition is_submission (r : request) : bool :=
  match r with
  | POST_crawl _ _ _ => true
  | _ => false
  end.

(** The characters of a string that satisfy [p]. *)
Fixpoint string_count (p : ascii -> bool) (s : string) : nat :=
  match s with
  | EmptyString => 0%nat
  | String c s' => ((if p c then 1 else 0) + string_count p s')%nat
  end.

Definition is_hyphen (c : ascii) : bool := Ascii.eqb c "-"%char.

(** [x] is the first element of [l] that satisfies [p]. *)
Definition first_match {A : Type} (p : A -> bool) (l : list A) (x : A) : Prop :=
  exists before after,
    l = before ++ x :: after /\ p x = true
    /\ forall y, In y before -> p y = false.

(** No element of [l] satisfies [p]. *)
Definition no_match {A : Type} (p : A -> bool) (l : list A) : Prop :=
  forall y, In y l -> p y = false.

End MoreProps.
Import MoreProps.

(** ** Facts about the string functions *)

Lemma string_app_nil (b : string) : "" +:+ b = b.
Proof. reflexivity. Qed.

Lemma string_app_cons x (a b : string) : String x a +:+ b = String x (a +:+ b).
Proof. reflexivity. Qed.

Lemma string_app_assoc (a b c : string) : (a +:+ b) +:+ c = a +:+ (b +:+ c).
Proof.
  induction a as [|x a IH]; [reflexivity |].
  rewrite !string_app_cons. now f_equal.
Qed.

Lemma string_length_app (a b : string) :
  String.length (a +:+ b) = (String.length a + String.length b)%nat.
Proof.
  induction a as [|x a IH]; [reflexivity |].
  rewrite string_app_cons. simpl. now f_equal.
Qed.

Lemma string_forallb_app p (a b : string) :
  string_forallb p (a +:+ b) = string_forallb p a && string_forallb p b.
Proof.
  induction a as [|x a IH]; [reflexivity |].
  rewrite string_app_cons. simpl. now rewrite IH, andb_assoc.
Qed.

Lemma substring_0_app (a b : string) :
  String.substring 0 (String.length a) (a +:+ b) = a.
Proof.
  induction a as [|x a IH]; [now destruct b |].
  rewrite string_app_cons. simpl. now f_equal.
Qed.

Lemma substring_0_length n (s : string) :
  (n <= String.length s)%nat -> String.length (String.substring 0 n s) = n.
Proof.
  revert s; induction n as [|n IH]; intros [|c s] Hn; simpl in *;
    try reflexivity; try lia.
  rewrite IH; [reflexivity | lia].
Qed.

Lemma substring_0_forallb p n (s : string) :
  string_forallb p s = true -> string_forallb p (String.substring 0 n s) = true.
Proof.
  revert s; induction n as [|n IH]; intros [|c s]; simpl; try reflexivity.
  intros [Hc Hs]%andb_true_iff. rewrite Hc. now apply IH.
Qed.

Lemma fixed_digits_length base w n : String.length (fixed_digits base w n) = w.
Proof.
  revert n; induction w as [|w IH]; intros n; simpl; [reflexivity |].
  rewrite string_length_app, IH. simpl. lia.
Qed.

Lemma digit_char_decimal d : d < 10 -> is_digit (digit_char d) = true.
Proof.
  intros Hd.
  assert (d = 0 \/ d = 1 \/ d = 2 \/ d = 3 \/ d = 4 \/ d = 5 \/ d = 6 \/ d = 7
          \/ d = 8 \/ d = 9) as Hcases by lia.
  repeat (destruct Hcases as [-> | Hcases]; [reflexivity |]). now subst.
Qed.

Lemma digit_char_hex d : d < 16 -> is_lower_hex (digit_char d) = true.
Proof.
  intros Hd.
  assert (d = 0 \/ d = 1 \/ d = 2 \/ d = 3 \/ d = 4 \/ d = 5 \/ d = 6 \/ d = 7
          \/ d = 8 \/ d = 9 \/ d = 10 \/ d = 11 \/ d = 12 \/ d = 13 \/ d = 14
          \/ d = 15) as Hcases by lia.
  repeat (destruct Hcases as [-> | Hcases]; [reflexivity |]). now subst.
Qed.

Lemma fixed_digits_decimal w n : string_forallb is_digit (fixed_digits 10 w n) = true.
Proof.
  revert n; induction w as [|w IH]; intros n; simpl; [reflexivity |].
  rewrite string_forallb_app, IH. simpl.
  rewrite digit_char_decimal; [reflexivity | apply N.mod_lt; lia].
Qed.

Lemma fixed_digits_hex w n : string_forallb is_lower_hex (fixed_digits 16 w n) = true.
Proof.
  revert n; induction w as [|w IH]; intros n; simpl; [reflexivity |].
  rewrite string_forallb_app, IH. simpl.
  rewrite digit_char_hex; [reflexivity | apply N.mod_lt; lia].
Qed.

Lemma zero_padded_fixed w n : n < 10 ^ N.of_nat w -> zero_padded w n = fixed_digits 10 w n.
Proof. intros Hn. unfold zero_padded. now apply N.ltb_lt in Hn as ->. Qed.

(** The eight characters the id ends with are the first group of the UUID. *)
Lemma unique_id_is_first_group u :
  slice_to 8 (uuid_str u) = String.substring 0 8 (fixed_digits 16 32 u).
Proof.
  unfold slice_to, uuid_str.
  set (hex := fixed_digits 16 32 u).
  assert (String.length (String.substring 0 8 hex) = 8%nat) as Hlen.
  { apply substring_0_length. unfold hex. rewrite fixed_digits_length. lia. }
  rewrite <- Hlen at 1. apply substring_0_app.
Qed.

(** ** The job id *)

Example job_id_example :
  _generate_job_id new_year_noon some_uuid "eventbrite"
  = "crawl_20240101_123456_eventbrite_1234abcd".
Proof. vm_compute. reflexivity. Qed.

(** C6, as stated: the id generated for spider eventbrite at 2024-01-01
    12:34:56 is [crawl_20240101_123456_eventbrite_1234abcd]; its timestamp is
    broken by an underscore, so the id does not match
    [crawl_<14-digit-datetime>_eventbrite_<8-hex>]. *)
Lemma job_id_not_fourteen_digits :
  _generate_job_id new_year_noon some_uuid "eventbrite"
  = "crawl_20240101_123456_eventbrite_1234abcd"
  /\ claimed_job_id_pattern "eventbrite"
       (_generate_job_id new_year_noon some_uuid "eventbrite") = false.
Proof. split; vm_compute; reflexivity. Qed.

(** C6, amended: for every spider name and every datetime, the generated id is
    [crawl_], an 8-digit date, an underscore, a 6-digit time, an underscore,
    the spider name, an underscore and 8 lower-case hex characters (the first
    group of the UUID). *)
Theorem job_id_format (now : datetime) (uuid4 : N) (spider_name : string) :
  valid_datetime now ->
  exists date time suffix,
    _generate_job_id now uuid4 spider_name
    = "crawl_" +:+ date +:+ "_" +:+ time +:+ "_" +:+ spider_name +:+ "_" +:+ suffix
    /\ date = fixed_digits 10 4 (year now) +:+ fixed_digits 10 2 (month now)
              +:+ fixed_digits 10 2 (day now)
    /\ String.length date = 8%nat /\ string_forallb is_digit date = true
    /\ time = fixed_digits 10 2 (hour now) +:+ fixed_digits 10 2 (minute now)
              +:+ fixed_digits 10 2 (second now)
    /\ String.length time = 6%nat /\ string_forallb is_digit time = true
    /\ suffix = String.substring 0 8 (fixed_digits 16 32 uuid4)
    /\ String.length suffix = 8%nat /\ string_forallb is_lower_hex suffix = true.
Proof.
  intros (Hy & Hm & Hd & Hh & Hmi & Hs).
  exists (fixed_digits 10 4 (year now) +:+ fixed_digits 10 2 (month now)
          +:+ fixed_digits 10 2 (day now)),
         (fixed_digits 10 2 (hour now) +:+ fixed_digits 10 2 (minute now)
          +:+ fixed_digits 10 2 (second now)),
         (String.substring 0 8 (fixed_digits 16 32 uuid4)).
  split.
  { unfold _generate_job_id, strftime_Ymd_HMS.
    rewrite unique_id_is_first_group.
    rewrite !zero_padded_fixed by (change (10 ^ N.of_nat 4) with 10000;
                                   change (10 ^ N.of_nat 2) with 100; lia).
    now rewrite !string_app_assoc. }
  rewrite !string_length_app, !string_forallb_app, !fixed_digits_length,
    !fixed_digits_decimal.
  repeat apply conj;
    first [ apply substring_0_forallb, fixed_digits_hex
          | apply substring_0_length; rewrite fixed_digits_length; lia
          | reflexivity ].
Qed.

Lemma job_id_format_witness :
  valid_datetime new_year_noon /\
  exists date time suffix,
    _generate_job_id new_year_noon some_uuid "eventbrite"
    = "crawl_" +:+ date +:+ "_" +:+ time +:+ "_" +:+ "eventbrite" +:+ "_" +:+ suffix
    /\ date = "20240101" /\ time = "123456" /\ suffix = "1234abcd".
Proof.
  assert (valid_datetime new_year_noon) as Hv by (unfold valid_datetime; simpl; lia).
  split; [exact Hv |].
  destruct (job_id_format new_year_noon some_uuid "eventbrite" Hv)
    as (date & time & suffix & Hid & Hdate & _ & _ & Htime & _ & _ & Hsuffix & _).
  exists date, time, suffix.
  split; [exact Hid |]. split; [exact Hdate |]. split; [exact Htime | exact Hsuffix].
Defined.

(** ** Submitting a crawl *)

Lemma trigger_crawl_accepted now uuid4 request jobs :
  spider (default CrawlRequest_default request) ∈ available_spiders ->
  trigger_crawl now uuid4 request jobs =
    let job_id :=
      _generate_job_id now uuid4 (spider (default CrawlRequest_default request)) in
    (<[job_id := "pending"]> jobs, Ok {| job_id := job_id; status := "pending" |}).
Proof. intros Hin. unfold trigger_crawl. now rewrite bool_decide_eq_true_2. Qed.

Lemma trigger_crawl_rejected now uuid4 request jobs :
  spider (default CrawlRequest_default request) ∉ available_spiders ->
  trigger_crawl now uuid4 request jobs =
    (jobs,
     HTTPException 400
       ("Spider '" +:+ spider (default CrawlRequest_default request)
        +:+ "' not found. Available: ['luma', 'eventbrite']")).
Proof. intros Hin. unfold trigger_crawl. now rewrite bool_decide_eq_false_2. Qed.

Lemma available_spiders_spec name :
  name ∈ available_spiders <-> name = "luma" \/ name = "eventbrite".
Proof.
  unfold available_spiders.
  rewrite !elem_of_cons, elem_of_nil. tauto.
Qed.

(** C2: for a valid spider name, submit returns a job id with status pending,
    the registry afterwards is the old one with that id set to pending, and a
    status query on the id right after returns pending. *)
Theorem submit_registers_pending now uuid4 (request : option CrawlRequest)
    (jobs : registry) :
  let spider_name := spider (default CrawlRequest_default request) in
  spider_name = "luma" \/ spider_name = "eventbrite" ->
  exists id,
    id = _generate_job_id now uuid4 spider_name
    /\ trigger_crawl now uuid4 request jobs
       = (<[id := "pending"]> jobs, Ok {| job_id := id; status := "pending" |})
    /\ (trigger_crawl now uuid4 request jobs).1 !! id = Some "pending"
    /\ get_crawl_status id (trigger_crawl now uuid4 request jobs).1
       = Ok [("job_id", id); ("status", "pending")].
Proof.
  intros spider_name Hvalid%available_spiders_spec.
  exists (_generate_job_id now uuid4 spider_name).
  rewrite (trigger_crawl_accepted _ _ _ _ Hvalid). cbn zeta. fold spider_name.
  unfold get_crawl_status. cbn [fst]. rewrite lookup_insert_eq. auto.
Qed.

Lemma submit_registers_pending_witness :
  (spider (default CrawlRequest_default (Some eventbrite_request)) = "luma"
   \/ spider (default CrawlRequest_default (Some eventbrite_request)) = "eventbrite")
  /\ exists id,
    id = "crawl_20240101_123456_eventbrite_1234abcd"
    /\ get_crawl_status id
         (trigger_crawl new_year_noon some_uuid (Some eventbrite_request) ∅).1
       = Ok [("job_id", id); ("status", "pending")].
Proof.
  assert (spider (default CrawlRequest_default (Some eventbrite_request)) = "luma"
   \/ spider (default CrawlRequest_default (Some eventbrite_request)) = "eventbrite")
    as Hv by (right; reflexivity).
  split; [exact Hv |].
  destruct (submit_registers_pending new_year_noon some_uuid
              (Some eventbrite_request) ∅ Hv) as (id & Hid & _ & _ & Hst).
  exists id. split; [| exact Hst].
  rewrite Hid. vm_compute. reflexivity.
Defined.

(** C3: a spider name outside the allow-list is answered with 400, the detail
    names both luma and eventbrite, and the registry is the one before. *)
Theorem submit_unknown_spider now uuid4 (request : option CrawlRequest)
    (jobs : registry) :
  let spider_name := spider (default CrawlRequest_default request) in
  spider_name <> "luma" -> spider_name <> "eventbrite" ->
  exists detail,
    trigger_crawl now uuid4 request jobs = (jobs, HTTPException 400 detail)
    /\ detail = "Spider '" +:+ spider_name
                +:+ "' not found. Available: ['luma', 'eventbrite']"
    /\ contains "luma" detail /\ contains "eventbrite" detail.
Proof.
  intros spider_name Hl He.
  assert (spider_name ∉ available_spiders) as Hout.
  { rewrite available_spiders_spec. tauto. }
  eexists. split; [apply (trigger_crawl_rejected _ _ _ _ Hout) |].
  fold spider_name. split; [reflexivity |]. split.
  - exists ("Spider '" +:+ spider_name +:+ "' not found. Available: ['"),
      "', 'eventbrite']".
    now rewrite !string_app_assoc.
  - exists ("Spider '" +:+ spider_name +:+ "' not found. Available: ['luma', '"),
      "']".
    now rewrite !string_app_assoc.
Qed.

Lemma submit_unknown_spider_witness :
  spider (default CrawlRequest_default (Some meetup_request)) <> "luma"
  /\ spider (default CrawlRequest_default (Some meetup_request)) <> "eventbrite"
  /\ exists detail,
       trigger_crawl new_year_noon some_uuid (Some meetup_request) ∅
       = (∅, HTTPException 400 detail)
       /\ detail = "Spider '" +:+ "meetup"
                   +:+ "' not found. Available: ['luma', 'eventbrite']"
       /\ contains "luma" detail /\ contains "eventbrite" detail.
Proof.
  assert (spider (default CrawlRequest_default (Some meetup_request)) <> "luma")
    as Hl by discriminate.
  assert (spider (default CrawlRequest_default (Some meetup_request)) <> "eventbrite")
    as He by discriminate.
  split; [exact Hl |]. split; [exact He |].
  exact (submit_unknown_spider new_year_noon some_uuid (Some meetup_request) ∅ Hl He).
Defined.

(** C10: two submissions that agree on the spider name, the clock and the
    UUID return the same answer and leave the same registry, whatever their
    urls are (an absent body counts as spider luma without urls). *)
Theorem submit_ignores_urls now uuid4 (request1 request2 : option CrawlRequest)
    (jobs : registry) :
  spider (default CrawlRequest_default request1)
  = spider (default CrawlRequest_default request2) ->
  trigger_crawl now uuid4 request1 jobs = trigger_crawl now uuid4 request2 jobs.
Proof. intros Hsame. unfold trigger_crawl. now rewrite Hsame. Qed.

Lemma submit_ignores_urls_witness :
  spider (default CrawlRequest_default (Some eventbrite_request))
  = spider (default CrawlRequest_default (Some eventbrite_with_urls))
  /\ trigger_crawl new_year_noon some_uuid (Some eventbrite_request) ∅
     = trigger_crawl new_year_noon some_uuid (Some eventbrite_with_urls) ∅.
Proof.
  assert (spider (default CrawlRequest_default (Some eventbrite_request))
          = spider (default CrawlRequest_default (Some eventbrite_with_urls)))
    as Hsame by reflexivity.
  split; [exact Hsame |].
  exact (submit_ignores_urls new_year_noon some_uuid (Some eventbrite_request)
           (Some eventbrite_with_urls) ∅ Hsame).
Defined.

(** ** Unknown and deleted jobs *)

Lemma get_crawl_status_absent job_id (jobs : registry) :
  jobs !! job_id = None ->
  get_crawl_status job_id jobs
  = HTTPException 404 ("Job '" +:+ job_id +:+ "' not found").
Proof. intros Hnone. unfold get_crawl_status. now rewrite Hnone. Qed.

Lemma cancel_crawl_job_absent job_id (jobs : registry) :
  jobs !! job_id = None ->
  cancel_crawl_job job_id jobs
  = (jobs, HTTPException 404 ("Job '" +:+ job_id +:+ "' not found")).
Proof. intros Hnone. unfold cancel_crawl_job. now rewrite Hnone. Qed.

Lemma cancel_crawl_job_present job_id st (jobs : registry) :
  jobs !! job_id = Some st ->
  cancel_crawl_job job_id jobs
  = (delete job_id jobs,
     Ok [("message", "Job '" +:+ job_id +:+ "' has been removed");
         ("job_id", job_id)]).
Proof. intros Hsome. unfold cancel_crawl_job. now rewrite Hsome. Qed.

(** C5: on a job id that is not in the registry, status and delete both
    answer 404 and delete leaves the registry alone; a delete of a present id
    removes it, and status and delete on the registry it leaves answer the
    same 404 as on a registry that never held the id. *)
Theorem absent_job_not_found (job_id : string) (never deleted : registry)
    (st : string) :
  never !! job_id = None ->
  deleted !! job_id = Some st ->
  let not_found := HTTPException 404 ("Job '" +:+ job_id +:+ "' not found") in
  let after := (cancel_crawl_job job_id deleted).1 in
  get_crawl_status job_id never = not_found
  /\ cancel_crawl_job job_id never = (never, not_found)
  /\ after = delete job_id deleted
  /\ after !! job_id = None
  /\ get_crawl_status job_id after = not_found
  /\ cancel_crawl_job job_id after = (after, not_found).
Proof.
  intros Hnever Hdeleted not_found after.
  assert (after = delete job_id deleted) as Hafter.
  { unfold after. now rewrite (cancel_crawl_job_present _ _ _ Hdeleted). }
  assert (after !! job_id = None) as Hgone.
  { rewrite Hafter. apply lookup_delete_eq. }
  repeat apply conj;
    auto using get_crawl_status_absent, cancel_crawl_job_absent.
Qed.

Lemma absent_job_not_found_witness :
  (∅ : registry) !! "crawl_x" = None
  /\ ({["crawl_x" := "pending"]} : registry) !! "crawl_x" = Some "pending"
  /\ get_crawl_status "crawl_x" ∅ = HTTPException 404 "Job 'crawl_x' not found"
  /\ get_crawl_status "crawl_x"
       (cancel_crawl_job "crawl_x" {["crawl_x" := "pending"]}).1
     = HTTPException 404 "Job 'crawl_x' not found".
Proof.
  assert ((∅ : registry) !! "crawl_x" = None) as H1 by reflexivity.
  assert (({["crawl_x" := "pending"]} : registry) !! "crawl_x" = Some "pending")
    as H2 by reflexivity.
  split; [exact H1 |]. split; [exact H2 |].
  destruct (absent_job_not_found "crawl_x" ∅ {["crawl_x" := "pending"]}
              "pending" H1 H2) as (Ha & _ & _ & _ & Hb & _).
  split; [exact Ha | exact Hb].
Defined.

(** ** The registry never leaves pending *)

Lemma serve_keeps_pending r (jobs : registry) :
  map_Forall (fun _ st => st = "pending") jobs ->
  map_Forall (fun _ st => st = "pending") (serve r jobs).
Proof.
  intros Hall. destruct r as [now uuid4 body | id | | id]; simpl; try assumption.
  - unfold trigger_crawl. case_bool_decide; simpl; [| assumption].
    now apply map_Forall_insert_2.
  - unfold cancel_crawl_job. destruct (jobs !! id); simpl; [| assumption].
    now apply map_Forall_delete.
Qed.

Lemma registry_after_pending history :
  map_Forall (fun _ st => st = "pending") (registry_after history).
Proof.
  unfold registry_after.
  assert (map_Forall (fun _ st => st = "pending") (∅ : registry)) as Hempty
    by apply map_Forall_empty.
  revert Hempty. generalize (∅ : registry).
  induction history as [|r history IH]; intros jobs Hall; simpl; [assumption |].
  apply IH, serve_keeps_pending, Hall.
Qed.

(** C1, what the code does instead: after any history of requests, a status
    query answers 404 or pending; no job is ever reported running, completed
    or failed, because nothing schedules the stub. *)
Theorem status_is_pending_forever (history : list request) (job_id : string) :
  get_crawl_status job_id (registry_after history)
  = HTTPException 404 ("Job '" +:+ job_id +:+ "' not found")
  \/ get_crawl_status job_id (registry_after history)
     = Ok [("job_id", job_id); ("status", "pending")].
Proof.
  unfold get_crawl_status.
  destruct (registry_after history !! job_id) as [st|] eqn:Hlook; [right | now left].
  now rewrite (registry_after_pending history _ _ Hlook).
Qed.

(** The scenario of the specification: eventbrite is submitted and polled, and
    the answer is still pending however often it is polled. *)
Example eventbrite_stays_pending (polls : nat) :
  let id := "crawl_20240101_123456_eventbrite_1234abcd" in
  get_crawl_status id
    (registry_after
       (POST_crawl new_year_noon some_uuid (Some eventbrite_request)
        :: repeat (GET_crawl_job id) polls))
  = Ok [("job_id", id); ("status", "pending")].
Proof.
  intros id. unfold registry_after. simpl.
  assert (forall jobs : registry,
            foldl (fun jobs r => serve r jobs) jobs (repeat (GET_crawl_job id) polls)
            = jobs) as ->.
  { induction polls as [|n IH]; intros jobs; simpl; [reflexivity | apply IH]. }
  vm_compute. reflexivity.
Qed.

(** ** Listing the jobs *)

Lemma sum_counts_empty : sum_counts ∅ = 0%nat.
Proof. unfold sum_counts. apply map_fold_empty. Qed.

Lemma sum_counts_insert_fresh (counts : gmap string nat) k n :
  counts !! k = None ->
  sum_counts (<[k := n]> counts) = (n + sum_counts counts)%nat.
Proof.
  intros Hfresh. unfold sum_counts.
  rewrite map_fold_insert_L; [reflexivity | | assumption].
  intros; lia.
Qed.

(** Overwriting a key moves the sum by the difference of the counts. *)
Lemma sum_counts_insert (counts : gmap string nat) k n :
  (sum_counts (<[k := n]> counts) + default 0 (counts !! k)
   = n + sum_counts counts)%nat.
Proof.
  destruct (counts !! k) as [old|] eqn:Hk; simpl.
  - rewrite <- (insert_delete_eq counts k n).
    rewrite <- (insert_delete_id counts k old Hk) at 2.
    rewrite !sum_counts_insert_fresh by apply lookup_delete_eq. lia.
  - rewrite sum_counts_insert_fresh by assumption. lia.
Qed.

Lemma sum_counts_count_status (counts : gmap string nat) status :
  sum_counts (count_status counts status) = S (sum_counts counts).
Proof.
  unfold count_status.
  pose proof (sum_counts_insert counts status
                (default 0 (counts !! status) + 1)%nat) as Hsum.
  lia.
Qed.

Lemma sum_counts_foldl (statuses : list string) (counts : gmap string nat) :
  sum_counts (foldl count_status counts statuses)
  = (sum_counts counts + length statuses)%nat.
Proof.
  revert counts; induction statuses as [|st statuses IH]; intros counts; simpl.
  - lia.
  - rewrite IH, sum_counts_count_status. lia.
Qed.

Lemma values_length (jobs : registry) : length (values jobs) = size jobs.
Proof. unfold values. now rewrite length_fmap, length_map_to_list. Qed.

(** C9: whatever the registry holds, the counts of [status_summary] add up to
    [total_jobs], which is the number of entries of the returned [jobs]. *)
Theorem status_summary_sums_to_total (jobs : registry) :
  sum_counts (status_summary (list_crawl_jobs jobs))
  = total_jobs (list_crawl_jobs jobs)
  /\ total_jobs (list_crawl_jobs jobs) = size (listed_jobs (list_crawl_jobs jobs))
  /\ listed_jobs (list_crawl_jobs jobs) = jobs.
Proof.
  unfold list_crawl_jobs, count_statuses; simpl.
  rewrite sum_counts_foldl, sum_counts_empty, values_length. auto.
Qed.

(** Each count is the number of jobs with that status. *)
Lemma count_statuses_lookup (statuses : list string) (st : string) :
  default 0%nat (count_statuses statuses !! st)
  = length (filter (fun s => s = st) statuses).
Proof.
  unfold count_statuses.
  rewrite <- (Nat.add_0_l (length _)).
  change 0%nat with (default 0%nat ((∅ : gmap string nat) !! st)) at 2.
  generalize (∅ : gmap string nat).
  induction statuses as [|s statuses IH]; intros counts; simpl; [lia |].
  rewrite IH. unfold count_status.
  destruct (decide (s = st)) as [-> | Hne].
  - rewrite filter_cons_True by reflexivity.
    rewrite lookup_insert_eq. simpl. lia.
  - rewrite filter_cons_False by assumption.
    now rewrite lookup_insert_ne.
Qed.

(** ** The execution stub *)

Ltac run_stub :=
  unfold _run_spider_async, try_except_Exception, mbind, task_bind,
    set_job, sleep, print; simpl.

(** The first thing the stub does is write running. *)
Lemma stub_writes_running_first env spider_name job_id settings (w : world) :
  exists later,
    ghost_writes (_run_spider_async env spider_name job_id settings w).1
    = ghost_writes w ++ (job_id, "running") :: later.
Proof.
  destruct env as [[m1 s1] p1 [m2 s2] p2 p3]. run_stub.
  destruct s1 as [|e1]; simpl.
  2:{ destruct (is_Exception e1); simpl; [destruct p3; simpl |];
      rewrite <- ?app_assoc; simpl; eauto. }
  destruct p1 as [|e2]; simpl.
  2:{ destruct (is_Exception e2); simpl; [destruct p3; simpl |];
      rewrite <- ?app_assoc; simpl; eauto. }
  destruct s2 as [|e3]; simpl.
  2:{ destruct (is_Exception e3); simpl; [destruct p3; simpl |];
      rewrite <- ?app_assoc; simpl; eauto. }
  destruct p2 as [|e4]; simpl.
  2:{ destruct (is_Exception e4); simpl; [destruct p3; simpl |];
      rewrite <- ?app_assoc; simpl; eauto. }
  rewrite <- ?app_assoc; simpl; eauto.
Qed.

(** C4, as stated: when the task is cancelled during the first sleep, the
    [CancelledError] is not an [Exception], so the handler does not run: the
    error leaves the stub, running is the only status written and the job is
    left at running. *)
Lemma stub_cancelled_escapes :
  let run := _run_spider_async cancelled_at_startup "luma" "crawl_x" ∅
               one_pending_job in
  run.2 = Propagates CancelledError
  /\ ghost_writes run.1 = [("crawl_x", "running")]
  /\ w_jobs run.1 !! "crawl_x" = Some "running"
  /\ ~ claimed_stub_run "crawl_x" one_pending_job run.
Proof.
  repeat apply conj; try (vm_compute; reflexivity).
  intros [Hreturned _]. vm_compute in Hreturned. discriminate.
Qed.

(** An error of [print] after the completed write is caught by the same
    handler: failed is written after completed. *)
Example stub_completed_then_failed :
  let run := _run_spider_async stdout_breaks_after_completed "luma" "crawl_x" ∅
               one_pending_job in
  run.2 = Returns tt
  /\ ghost_writes run.1
     = [("crawl_x", "running"); ("crawl_x", "completed"); ("crawl_x", "failed")]
  /\ w_jobs run.1 !! "crawl_x" = Some "failed".
Proof. vm_compute. auto. Qed.

(** An error of [print] inside the handler leaves the stub. *)
Example stub_handler_print_escapes :
  let run := _run_spider_async stdout_closed "luma" "crawl_x" ∅ one_pending_job in
  run.2 = Propagates BrokenPipeError
  /\ ghost_writes run.1 = [("crawl_x", "running"); ("crawl_x", "failed")].
Proof. vm_compute. auto. Qed.

(** A job deleted while the stub sleeps is written back by the stub. *)
Example stub_recreates_deleted_job :
  let run := _run_spider_async deleted_during_crawl "luma" "crawl_x" ∅
               one_pending_job in
  run.2 = Returns tt /\ w_jobs run.1 = {["crawl_x" := "completed"]}.
Proof. vm_compute. auto. Qed.

(** C4, amended: with its [print] calls succeeding, the stub first writes
    running; if no awaited operation raises it then writes completed and
    returns; if one raises an instance of [Exception] it writes failed instead
    and returns; if one raises anything else the error leaves the stub and
    running stays the last status written.  The stub writes to no other job,
    when it returns the registry holds the status written last, whatever the
    other tasks did meanwhile, and for a job that was pending the statuses are
    a prefix of pending, running, completed or of pending, running, failed. *)
Theorem stub_status_sequence env spider_name job_id settings (w : world) :
  prints_complete env ->
  let run := _run_spider_async env spider_name job_id settings w in
  exists statuses,
    ghost_writes run.1 = ghost_writes w ++ map (pair job_id) statuses
    /\ match first_raise env with
       | None =>
           run.2 = Returns tt /\ statuses = ["running"; "completed"]
           /\ w_jobs run.1 !! job_id = Some "completed"
       | Some e =>
           if is_Exception e
           then run.2 = Returns tt /\ statuses = ["running"; "failed"]
                /\ w_jobs run.1 !! job_id = Some "failed"
           else run.2 = Propagates e /\ statuses = ["running"]
       end
    /\ ("pending" :: statuses `prefix_of` ["pending"; "running"; "completed"]
        \/ "pending" :: statuses `prefix_of` ["pending"; "running"; "failed"]).
Proof.
  destruct env as [[m1 s1] p1 [m2 s2] p2 p3].
  intros (Hp1 & Hp2 & Hp3); simpl in Hp1, Hp2, Hp3; subst p1 p2 p3.
  unfold first_raise; simpl.
  destruct s1 as [|e1]; [destruct s2 as [|e2] |].
  - exists ["running"; "completed"]. run_stub.
    rewrite <- !app_assoc, lookup_insert_eq. simpl.
    repeat apply conj; auto; try (now left).
  - destruct (is_Exception e2) eqn:He2.
    + exists ["running"; "failed"]. run_stub. rewrite He2. simpl.
      rewrite <- !app_assoc, lookup_insert_eq. simpl.
      repeat apply conj; auto; try (now right).
    + exists ["running"]. run_stub. rewrite He2. simpl.
      repeat apply conj; auto; try (left; now exists ["completed"]).
  - destruct (is_Exception e1) eqn:He1.
    + exists ["running"; "failed"]. run_stub. rewrite He1. simpl.
      rewrite <- !app_assoc, lookup_insert_eq. simpl.
      repeat apply conj; auto; try (now right).
    + exists ["running"]. run_stub. rewrite He1. simpl.
      repeat apply conj; auto; try (left; now exists ["completed"]).
Qed.

Lemma stub_status_sequence_witness :
  prints_complete crawl_times_out
  /\ let run := _run_spider_async crawl_times_out "luma" "crawl_x" ∅
                  one_pending_job in
     exists statuses,
       ghost_writes run.1
       = ghost_writes one_pending_job ++ map (pair "crawl_x") statuses
       /\ match first_raise crawl_times_out with
          | None =>
              run.2 = Returns tt /\ statuses = ["running"; "completed"]
              /\ w_jobs run.1 !! "crawl_x" = Some "completed"
          | Some e =>
              if is_Exception e
              then run.2 = Returns tt /\ statuses = ["running"; "failed"]
                   /\ w_jobs run.1 !! "crawl_x" = Some "failed"
              else run.2 = Propagates e /\ statuses = ["running"]
          end
       /\ ("pending" :: statuses `prefix_of` ["pending"; "running"; "completed"]
           \/ "pending" :: statuses `prefix_of` ["pending"; "running"; "failed"]).
Proof.
  assert (prints_complete crawl_times_out) as Hp by (repeat split).
  split; [exact Hp |].
  exact (stub_status_sequence crawl_times_out "luma" "crawl_x" ∅
           one_pending_job Hp).
Defined.

(** With nothing raising, the registry ends at completed. *)
Example stub_calm_run :
  let run := _run_spider_async calm "eventbrite" "crawl_x" ∅ one_pending_job in
  run.2 = Returns tt
  /\ ghost_writes run.1 = [("crawl_x", "running"); ("crawl_x", "completed")]
  /\ w_jobs run.1 !! "crawl_x" = Some "completed"
  /\ w_stdout run.1 = ["Starting spider eventbrite with job_id crawl_x";
                       "Spider eventbrite completed successfully"].
Proof. vm_compute. auto. Qed.

(** ** The event query surface *)

Import Router.

Example title_pattern_example :
  replace_char "-"%char "\s+" "tech-meetup-2024" = "tech\s+meetup\s+2024".
Proof. reflexivity. Qed.

Lemma head_filter_first_match {A} (p : A -> bool) (l : list A) (x : A) :
  head (List.filter p l) = Some x <-> first_match p l x.
Proof.
  unfold first_match. induction l as [|y l IH]; simpl.
  - split; [discriminate |].
    intros (before & after & Hl & _). now destruct before.
  - destruct (p y) eqn:Hy; simpl.
    + split.
      * intros [= ->]. exists [], l. repeat split; auto. intros ? [].
      * intros ([|z before] & after & Hl & Hx & Hbefore); simpl in Hl.
        -- now injection Hl as ->.
        -- injection Hl as -> _.
           rewrite (Hbefore z (or_introl eq_refl)) in Hy. discriminate.
    + rewrite IH. split.
      * intros (before & after & -> & Hx & Hbefore).
        exists (y :: before), after. repeat split; auto.
        intros z [<- | Hz]; auto.
      * intros ([|z before] & after & Hl & Hx & Hbefore); simpl in Hl.
        -- injection Hl as -> _. congruence.
        -- injection Hl as -> ->. exists before, after.
           repeat split; auto. intros; apply Hbefore; now right.
Qed.

Lemma head_filter_no_match {A} (p : A -> bool) (l : list A) :
  head (List.filter p l) = None <-> no_match p l.
Proof.
  unfold no_match. induction l as [|y l IH]; simpl.
  - split; [intros _ ? [] | reflexivity].
  - destruct (p y) eqn:Hy; simpl.
    + split; [discriminate |].
      intros Hnone. rewrite (Hnone y (or_introl eq_refl)) in Hy. discriminate.
    + rewrite IH. split.
      * intros Hnone z [<- | Hz]; auto.
      * intros Hnone z Hz. apply Hnone. now right.
Qed.


Section EventAnswers.

Context {value EventOutT json : Type}.
Context (store_accepts : filter_dict -> bool).
Context (doc_matches : filter_dict -> gmap string value -> bool).
Context (EventOut : gmap string value -> EventOutT + string).
Context (model_dump : EventOutT -> json).

(** An answered [GET /events]: the bounds hold, the store took the filter,
    and the events and headers are those of the page. *)
Lemma get_events_answered (coll : list (gmap string value)) (limit skip : Z)
    (city country event_type organizer : option string)
    (resp : JSONResponse json) :
  get_events store_accepts doc_matches EventOut model_dump coll limit skip
    city country event_type organizer = Ok resp ->
  (1 <= limit <= 100)%Z /\ (0 <= skip)%Z
  /\ store_accepts (build_filters city country event_type organizer) = true
  /\ content_events resp
     = omap (map_event EventOut model_dump)
         (take (Z.to_nat limit)
            (drop (Z.to_nat skip)
               (List.filter
                  (doc_matches (build_filters city country event_type organizer))
                  coll)))
  /\ headers resp !! "X-Total-Count"
     = Some (pretty
               (length
                  (List.filter
                     (doc_matches
                        (build_filters city country event_type organizer))
                     coll)))
  /\ headers resp !! "X-Has-More"
     = Some (if (skip + limit
                 <? Z.of_nat
                      (length
                         (List.filter
                            (doc_matches
                               (build_filters city country event_type organizer))
                            coll)))%Z
             then "true" else "false").
Proof.
  unfold get_events, invalid_params, count_documents, find.
  destruct (1 <=? limit)%Z eqn:Hlo; [| discriminate].
  destruct (limit <=? 100)%Z eqn:Hhi; [| discriminate].
  destruct (0 <=? skip)%Z eqn:Hskip; [| discriminate].
  simpl. destruct (store_accepts _) eqn:Haccepts; [| discriminate].
  intros [= <-]. simpl.
  apply Z.leb_le in Hlo, Hhi, Hskip.
  repeat apply conj; try assumption; try reflexivity.
  - destruct (_ <? _)%Z;
      now rewrite !lookup_insert_ne, lookup_insert_eq by discriminate.
  - destruct (_ <? _)%Z; apply lookup_insert_eq.
Qed.



(** Validation has no part in the headers. *)
Lemma get_events_headers_ignore_validation
    {E2 J2 : Type}
    (EventOut2 : gmap string value -> E2 + string) (model_dump2 : E2 -> J2)
    (coll : list (gmap string value)) (limit skip : Z)
    (city country event_type organizer : option string) :
  match get_events store_accepts doc_matches EventOut model_dump coll limit skip
          city country event_type organizer,
        get_events store_accepts doc_matches EventOut2 model_dump2 coll
          limit skip city country event_type organizer with
  | Ok resp1, Ok resp2 => headers resp1 = headers resp2
  | RequestValidationError params1, RequestValidationError params2 =>
      params1 = params2
  | InternalServerError, InternalServerError => True
  | _, _ => False
  end.
Proof.
  unfold get_events, count_documents, find.
  destruct (invalid_params limit skip); [| reflexivity].
  destruct (store_accepts _); [reflexivity | exact I].
Qed.

(** The answer of the two lookups of [get_event], read off the store. *)
Lemma lookup_event_spec (coll : list (gmap string value)) (api_id : string) :
  let by_id := {["api_id" := Equals api_id]} : filter_dict in
  let by_title :=
    {["title" := Regex (replace_char "-"%char "\s+" api_id) "i"]}
    : filter_dict in
  match lookup_event store_accepts doc_matches coll api_id with
  | OperationFailure =>
      store_accepts by_id = false
      \/ (store_accepts by_id = true /\ no_match (doc_matches by_id) coll
          /\ store_accepts by_title = false)
  | Answer None =>
      store_accepts by_id = true /\ no_match (doc_matches by_id) coll
      /\ store_accepts by_title = true /\ no_match (doc_matches by_title) coll
  | Answer (Some event) =>
      store_accepts by_id = true
      /\ (first_match (doc_matches by_id) coll event
          \/ (no_match (doc_matches by_id) coll
              /\ store_accepts by_title = true
              /\ first_match (doc_matches by_title) coll event))
  end.
Proof.
  intros by_id by_title. unfold lookup_event, find_one. fold by_id by_title.
  destruct (store_accepts by_id); [| now left].
  destruct (head (List.filter (doc_matches by_id) coll)) as [event|] eqn:Hid.
  - apply head_filter_first_match in Hid. auto.
  - apply head_filter_no_match in Hid.
    destruct (store_accepts by_title); [| now right].
    destruct (head (List.filter (doc_matches by_title) coll))
      as [event|] eqn:Htitle.
    + apply head_filter_first_match in Htitle. auto 6.
    + apply head_filter_no_match in Htitle. auto.
Qed.


End EventAnswers.




(** A request that breaks both bounds is refused for both. *)
Example get_events_both_bounds_example :
  get_events accept_all match_all reject_broken id three_events 0 (-1)
    None None None None = RequestValidationError ["limit"; "skip"].
Proof. vm_compute. reflexivity. Qed.

(** A hyphenated id that matches no record by [api_id] and whose pattern the
    store takes without a match is answered 404. *)
Example get_event_not_found_example :
  get_event refuse_unclosed match_equal reject_broken id three_events
    "tech-meetup-2024" = HTTPException 404 "Event not found".
Proof. vm_compute. reflexivity. Qed.

(** ** More on the registry handlers *)

Lemma foldl_count_status_absent (statuses : list string)
    (counts : gmap string nat) (st : string) :
  foldl count_status counts statuses !! st = None
  <-> counts !! st = None /\ st ∉ statuses.
Proof.
  revert counts; induction statuses as [|s statuses IH]; intros counts; simpl.
  - rewrite elem_of_nil. tauto.
  - rewrite IH, not_elem_of_cons. unfold count_status.
    destruct (decide (s = st)) as [-> | Hne].
    + rewrite lookup_insert_eq. split; [intros [? _]; discriminate | tauto].
    + rewrite lookup_insert_ne by assumption.
      split; [intros [? ?]; auto | tauto].
Qed.

(** X1: the summary of [GET /crawl] counts, for each status, the jobs that have
    it, and lists a status exactly when some job has it. *)
Theorem status_summary_counts_each_status (jobs : registry) (st : string) :
  default 0%nat (status_summary (list_crawl_jobs jobs) !! st)
  = length (filter (fun s => s = st) (values jobs))
  /\ (is_Some (status_summary (list_crawl_jobs jobs) !! st)
      <-> exists id, jobs !! id = Some st)
  /\ status_summary (list_crawl_jobs jobs) !! st <> Some 0%nat.
Proof.
  unfold list_crawl_jobs; simpl.
  assert (st ∈ values jobs <-> exists id, jobs !! id = Some st) as Hvalues.
  { unfold values. rewrite list_elem_of_fmap. split.
    - intros ([id s] & -> & Hel). exists id. now apply elem_of_map_to_list.
    - intros [id Hid]. exists (id, st).
      split; [reflexivity | now apply elem_of_map_to_list]. }
  assert (is_Some (count_statuses (values jobs) !! st)
          <-> exists id, jobs !! id = Some st) as Hkey.
  { rewrite <- Hvalues, <- not_eq_None_Some. unfold count_statuses.
    rewrite foldl_count_status_absent, lookup_empty.
    destruct (decide (st ∈ values jobs)); tauto. }
  split; [apply count_statuses_lookup |]. split; [exact Hkey |].
  intros Hzero.
  assert (is_Some (count_statuses (values jobs) !! st)) as Hsome by eauto.
  apply Hkey in Hsome as [id Hid].
  pose proof (count_statuses_lookup (values jobs) st) as Hcount.
  rewrite Hzero in Hcount. simpl in Hcount.
  assert (st ∈ filter (fun s => s = st) (values jobs)) as Hin.
  { apply list_elem_of_filter. split; [reflexivity |].
    unfold values. apply list_elem_of_fmap. exists (id, st).
    split; [reflexivity | now apply elem_of_map_to_list]. }
  destruct (filter (fun s => s = st) (values jobs)); [| discriminate].
  now apply elem_of_nil in Hin.
Qed.



(** X3: a delete that succeeds removes one entry and nothing else; a delete that
    answers 404 leaves the registry as it was. *)
Theorem cancel_touches_one_job (job_id : string) (jobs : registry) :
  let after := (cancel_crawl_job job_id jobs).1 in
  (forall other, other <> job_id -> after !! other = jobs !! other)
  /\ after !! job_id = None
  /\ dom after = dom jobs ∖ {[job_id]}
  /\ (is_Some (jobs !! job_id) -> S (size after) = size jobs)
  /\ (jobs !! job_id = None -> after = jobs).
Proof.
  intros after. unfold after, cancel_crawl_job.
  destruct (jobs !! job_id) as [st|] eqn:Hlook; simpl.
  - repeat apply conj.
    + intros other Hne. now apply lookup_delete_ne.
    + apply lookup_delete_eq.
    + apply dom_delete_L.
    + intros _. rewrite (map_size_delete_Some job_id jobs) by eauto.
      assert (size jobs <> 0%nat) by (apply (map_size_ne_0_lookup_2 jobs job_id); eauto).
      lia.
    + discriminate.
  - repeat apply conj; auto.
    + rewrite <- (delete_id jobs job_id) at 1 by assumption. apply dom_delete_L.
    + intros [? ?]; discriminate.
Qed.

(** X4: submitting and then deleting the returned id gives back the registry,
    when the id was not in it before. *)
Theorem submit_then_cancel_restores now uuid4 (request : option CrawlRequest)
    (jobs : registry) :
  let spider_name := spider (default CrawlRequest_default request) in
  let id := _generate_job_id now uuid4 spider_name in
  spider_name ∈ available_spiders ->
  jobs !! id = None ->
  cancel_crawl_job id (trigger_crawl now uuid4 request jobs).1
  = (jobs,
     Ok [("message", "Job '" +:+ id +:+ "' has been removed"); ("job_id", id)]).
Proof.
  intros spider_name id Hin Hfresh.
  rewrite (trigger_crawl_accepted _ _ _ _ Hin). cbn zeta. fold spider_name id.
  cbn [fst].
  rewrite (cancel_crawl_job_present id "pending") by apply lookup_insert_eq.
  now rewrite delete_insert_id.
Qed.

Lemma submit_then_cancel_restores_witness :
  spider (default CrawlRequest_default None) ∈ available_spiders
  /\ (∅ : registry) !! _generate_job_id new_year_noon some_uuid "luma" = None
  /\ (cancel_crawl_job (_generate_job_id new_year_noon some_uuid "luma")
        (trigger_crawl new_year_noon some_uuid None ∅).1).1 = ∅.
Proof.
  assert (spider (default CrawlRequest_default None) ∈ available_spiders)
    as Hin by (apply available_spiders_spec; now left).
  assert ((∅ : registry) !! _generate_job_id new_year_noon some_uuid "luma"
          = None) as Hfresh by apply lookup_empty.
  split; [exact Hin |]. split; [exact Hfresh |].
  pose proof (submit_then_cancel_restores new_year_noon some_uuid None ∅
                Hin Hfresh) as Hback.
  cbn zeta in Hback.
  change (spider (default CrawlRequest_default None)) with "luma" in Hback.
  now rewrite Hback.
Defined.

(** ** When two job ids coincide *)

Lemma string_app_inj_length (a a' b b' : string) :
  String.length a = String.length a' ->
  a +:+ b = a' +:+ b' -> a = a' /\ b = b'.
Proof.
  revert a'; induction a as [|x a IH]; intros [|x' a'] Hlen Heq;
    try discriminate; [auto |].
  rewrite !string_app_cons in Heq. injection Heq as -> Heq.
  simpl in Hlen. destruct (IH a') as [-> ->]; auto.
Qed.

Lemma string_app_inj_length_r (a a' b b' : string) :
  String.length b = String.length b' ->
  a +:+ b = a' +:+ b' -> a = a' /\ b = b'.
Proof.
  intros Hlen Heq. apply string_app_inj_length; [| assumption].
  apply (f_equal String.length) in Heq.
  rewrite !string_length_app in Heq. lia.
Qed.

Lemma N_of_digit_char d :
  d < 16 -> N_of_ascii (digit_char d) = if d <? 10 then 48 + d else 87 + d.
Proof.
  intros Hd. unfold digit_char.
  destruct (d <? 10); apply N_ascii_embedding; lia.
Qed.

Lemma digit_char_inj d1 d2 :
  d1 < 16 -> d2 < 16 -> digit_char d1 = digit_char d2 -> d1 = d2.
Proof.
  intros H1 H2 Heq. apply (f_equal N_of_ascii) in Heq.
  rewrite !N_of_digit_char in Heq by assumption.
  destruct (N.ltb_spec d1 10), (N.ltb_spec d2 10); lia.
Qed.

(** Below [base ^ w] the [w] digits determine the number. *)
Lemma fixed_digits_inj base w n m :
  2 <= base <= 16 -> n < base ^ N.of_nat w -> m < base ^ N.of_nat w ->
  fixed_digits base w n = fixed_digits base w m -> n = m.
Proof.
  intros Hbase. revert n m; induction w as [|w IH]; intros n m Hn Hm Heq.
  - change (base ^ N.of_nat 0) with 1 in *. lia.
  - rewrite Nat2N.inj_succ, N.pow_succ_r' in Hn, Hm. simpl in Heq.
    apply string_app_inj_length in Heq as [Hhigh Hlow];
      [| now rewrite !fixed_digits_length].
    injection Hlow as Hlow.
    apply digit_char_inj in Hlow;
      [| assert (n mod base < base) by (apply N.mod_lt; lia); lia
       | assert (m mod base < base) by (apply N.mod_lt; lia); lia].
    apply IH in Hhigh;
      [| apply N.Div0.div_lt_upper_bound; lia
       | apply N.Div0.div_lt_upper_bound; lia].
    rewrite (N.div_mod n base), (N.div_mod m base) by lia.
    now rewrite Hhigh, Hlow.
Qed.

(** The digits of a number split into its high and its low digits. *)
Lemma fixed_digits_app base w1 w2 n :
  base <> 0 ->
  fixed_digits base (w1 + w2) n
  = fixed_digits base w1 (n / base ^ N.of_nat w2) +:+ fixed_digits base w2 n.
Proof.
  intros Hbase. revert n; induction w2 as [|w2 IH]; intros n.
  - rewrite Nat.add_0_r. change (base ^ N.of_nat 0) with 1. rewrite N.div_1_r.
    simpl. generalize (fixed_digits base w1 n). intros s.
    induction s as [|c s IHs]; [reflexivity |].
    rewrite string_app_cons. now f_equal.
  - rewrite Nat.add_succ_r. simpl. rewrite IH, string_app_assoc.
    rewrite Nat2N.inj_succ, N.pow_succ_r', N.Div0.div_div. reflexivity.
Qed.

(** Only the [w] low digits of a number are printed. *)
Lemma fixed_digits_mod base w n :
  base <> 0 ->
  fixed_digits base w n = fixed_digits base w (n mod base ^ N.of_nat w).
Proof.
  intros Hbase. revert n; induction w as [|w IH]; intros n; [reflexivity |].
  simpl. rewrite Nat2N.inj_succ, N.pow_succ_r'.
  rewrite (IH (n / base)), (IH (_ / base)). f_equal.
  - f_equal. rewrite N.Div0.mod_mul_r.
    rewrite (N.mul_comm base), N.div_add by assumption.
    rewrite (N.div_small (n mod base)) by (apply N.mod_lt; assumption).
    rewrite N.add_0_l. now rewrite N.Div0.mod_mod.
  - do 2 f_equal. rewrite N.Div0.mod_mul_r.
    rewrite (N.mul_comm base), N.Div0.mod_add. now rewrite N.Div0.mod_mod.
Qed.

(** The suffix of the id prints the 32 high bits of the UUID. *)
Lemma unique_id_high_bits u :
  slice_to 8 (uuid_str u) = fixed_digits 16 8 (u / 2 ^ 96 mod 2 ^ 32).
Proof.
  rewrite unique_id_is_first_group.
  rewrite (fixed_digits_app 16 8 24) by lia.
  rewrite <- (fixed_digits_length 16 8 (u / 16 ^ N.of_nat 24)) at 1.
  rewrite substring_0_app.
  rewrite (fixed_digits_mod 16 8) by lia. reflexivity.
Qed.

(** X5: two submissions get the same job id exactly when they fall in the same
    second, name the same spider and draw UUIDs with the same 32 high bits. *)
Theorem job_ids_coincide (now1 now2 : datetime) (u1 u2 : N) (s1 s2 : string) :
  valid_datetime now1 -> valid_datetime now2 ->
  _generate_job_id now1 u1 s1 = _generate_job_id now2 u2 s2
  <-> now1 = now2 /\ s1 = s2 /\ u1 / 2 ^ 96 mod 2 ^ 32 = u2 / 2 ^ 96 mod 2 ^ 32.
Proof.
  intros (Hy1 & Hm1 & Hd1 & Hh1 & Hmi1 & Hs1) (Hy2 & Hm2 & Hd2 & Hh2 & Hmi2 & Hs2).
  unfold _generate_job_id. rewrite !unique_id_high_bits.
  split.
  - unfold strftime_Ymd_HMS.
    rewrite !zero_padded_fixed by (change (10 ^ N.of_nat 4) with 10000;
                                   change (10 ^ N.of_nat 2) with 100; lia).
    rewrite !string_app_assoc. intros Heq.
    apply string_app_inj_length in Heq as [_ Heq]; [| reflexivity].
    apply string_app_inj_length in Heq as [Hyear Heq];
      [| now rewrite !fixed_digits_length].
    apply string_app_inj_length in Heq as [Hmonth Heq];
      [| now rewrite !fixed_digits_length].
    apply string_app_inj_length in Heq as [Hday Heq];
      [| now rewrite !fixed_digits_length].
    apply string_app_inj_length in Heq as [_ Heq]; [| reflexivity].
    apply string_app_inj_length in Heq as [Hhour Heq];
      [| now rewrite !fixed_digits_length].
    apply string_app_inj_length in Heq as [Hminute Heq];
      [| now rewrite !fixed_digits_length].
    apply string_app_inj_length in Heq as [Hsecond Heq];
      [| now rewrite !fixed_digits_length].
    apply string_app_inj_length in Heq as [_ Heq]; [| reflexivity].
    apply string_app_inj_length_r in Heq as [Hspider Heq];
      [| rewrite !string_length_app, !fixed_digits_length; reflexivity].
    apply string_app_inj_length in Heq as [_ Hhex]; [| reflexivity].
    apply fixed_digits_inj in Hyear, Hmonth, Hday, Hhour, Hminute, Hsecond;
      try lia;
      try (change (10 ^ N.of_nat 4) with 10000;
           change (10 ^ N.of_nat 2) with 100; lia).
    apply fixed_digits_inj in Hhex;
      [| lia | change (16 ^ N.of_nat 8) with (2 ^ 32); apply N.mod_lt; lia ..].
    destruct now1, now2; simpl in *. subst. auto.
  - intros (-> & -> & ->). reflexivity.
Qed.

Lemma job_ids_coincide_witness :
  valid_datetime new_year_noon /\ valid_datetime new_year_noon
  /\ some_uuid <> uuid_sharing_high_bits
  /\ _generate_job_id new_year_noon some_uuid "luma"
     = _generate_job_id new_year_noon uuid_sharing_high_bits "luma".
Proof.
  assert (valid_datetime new_year_noon) as Hv by (unfold valid_datetime; simpl; lia).
  split; [exact Hv |]. split; [exact Hv |]. split; [discriminate |].
  apply (job_ids_coincide new_year_noon new_year_noon some_uuid
           uuid_sharing_high_bits "luma" "luma" Hv Hv).
  repeat split.
Defined.

(** ** The stub, whatever the environment does *)

Ltac stub_cases env :=
  destruct env as [[? [|?]] [|?] [? [|?]] [|?] [|?]]; run_stub;
  repeat match goal with
         | |- context [if is_Exception ?e then _ else _] =>
             destruct (is_Exception e) eqn:?; simpl
         | H : context [if is_Exception ?e then _ else _] |- _ =>
             destruct (is_Exception e) eqn:?; simpl in H
         end.

Ltac stub_written :=
  solve [ split; [rewrite <- ?app_assoc; reflexivity |];
          split; [simpl; tauto |];
          simpl; intuition (discriminate || auto) ].

(** X6: whatever is raised and whatever the other tasks do, the stub writes only
    to its own job, never writes pending, and writes one of four sequences:
    running; running, failed; running, completed; running, completed,
    failed.  Completed is written exactly when both sleeps and the first
    [print] complete. *)
Theorem stub_writes_in_any_environment env spider_name job_id settings
    (w : world) :
  let run := _run_spider_async env spider_name job_id settings w in
  exists statuses,
    ghost_writes run.1 = ghost_writes w ++ map (pair job_id) statuses
    /\ In statuses [["running"]; ["running"; "failed"]; ["running"; "completed"];
                    ["running"; "completed"; "failed"]]
    /\ (In "completed" statuses
        <-> resumed (sleep_startup env) = Completes
            /\ print_starting env = Completes
            /\ resumed (sleep_crawl env) = Completes).
Proof.
  stub_cases env;
    first [ exists ["running"; "completed"; "failed"]; stub_written
          | exists ["running"; "completed"]; stub_written
          | exists ["running"; "failed"]; stub_written
          | exists ["running"]; stub_written ].
Qed.

(** X7: when the stub returns, its job is in the registry with a terminal status,
    also if the job was deleted while the stub slept. *)
Theorem stub_return_leaves_terminal_status env spider_name job_id settings
    (w : world) :
  let run := _run_spider_async env spider_name job_id settings w in
  run.2 = Returns tt ->
  w_jobs run.1 !! job_id = Some "completed"
  \/ w_jobs run.1 !! job_id = Some "failed".
Proof.
  stub_cases env; intros Hret; try discriminate;
    rewrite lookup_insert_eq; auto.
Qed.

Lemma stub_return_leaves_terminal_status_witness :
  (_run_spider_async deleted_during_crawl "luma" "crawl_x" ∅ one_pending_job).2
  = Returns tt
  /\ (w_jobs (_run_spider_async deleted_during_crawl "luma" "crawl_x" ∅
                one_pending_job).1 !! "crawl_x" = Some "completed"
      \/ w_jobs (_run_spider_async deleted_during_crawl "luma" "crawl_x" ∅
                   one_pending_job).1 !! "crawl_x" = Some "failed").
Proof.
  assert ((_run_spider_async deleted_during_crawl "luma" "crawl_x" ∅
             one_pending_job).2 = Returns tt) as Hret by reflexivity.
  split; [exact Hret |].
  exact (stub_return_leaves_terminal_status deleted_during_crawl "luma"
           "crawl_x" ∅ one_pending_job Hret).
Defined.

(** X8: an error leaves the stub only if it is not an instance of [Exception] or
    was raised by the [print] of the handler itself; in the second case
    failed has been written. *)
Theorem stub_escaping_error env spider_name job_id settings (w : world)
    (e : py_exc) :
  let run := _run_spider_async env spider_name job_id settings w in
  run.2 = Propagates e ->
  is_Exception e = false
  \/ (print_failed env = Raises e /\ w_jobs run.1 !! job_id = Some "failed").
Proof.
  stub_cases env; intros Hret; try discriminate;
    injection Hret as <-;
    first [ now left
          | right; split; [reflexivity | apply lookup_insert_eq] ].
Qed.

Lemma stub_escaping_error_witness :
  (_run_spider_async stdout_closed "luma" "crawl_x" ∅ one_pending_job).2
  = Propagates BrokenPipeError
  /\ (is_Exception BrokenPipeError = false
      \/ (print_failed stdout_closed = Raises BrokenPipeError
          /\ w_jobs (_run_spider_async stdout_closed "luma" "crawl_x" ∅
                       one_pending_job).1 !! "crawl_x" = Some "failed")).
Proof.
  assert ((_run_spider_async stdout_closed "luma" "crawl_x" ∅
             one_pending_job).2 = Propagates BrokenPipeError) as Hret
    by reflexivity.
  split; [exact Hret |].
  exact (stub_escaping_error stdout_closed "luma" "crawl_x" ∅ one_pending_job
           BrokenPipeError Hret).
Defined.

(** ** Which ids the registry can hold *)

Lemma serve_lookup r (jobs : registry) id st :
  serve r jobs !! id = Some st ->
  jobs !! id = Some st
  \/ exists now uuid4 body,
       r = POST_crawl now uuid4 body
       /\ spider (default CrawlRequest_default body) ∈ available_spiders
       /\ id = _generate_job_id now uuid4
                 (spider (default CrawlRequest_default body))
       /\ st = "pending".
Proof.
  destruct r as [now uuid4 body | other | | other]; simpl; auto.
  - unfold trigger_crawl. case_bool_decide as Hin; simpl; [| auto].
    intros [[<- <-] | [_ Hold]]%lookup_insert_Some; [| auto].
    right. exists now, uuid4, body. auto.
  - unfold cancel_crawl_job. destruct (jobs !! other); simpl; [| auto].
    intros [_ Hold]%lookup_delete_Some. auto.
Qed.

(** X9: every job in the registry was put there by an accepted [POST /crawl] of
    the history: its id is the one generated for that request, its spider is
    luma or eventbrite, and its status is pending. *)
Theorem registry_holds_generated_ids (history : list request)
    (id st : string) :
  registry_after history !! id = Some st ->
  exists now uuid4 body,
    In (POST_crawl now uuid4 body) history
    /\ spider (default CrawlRequest_default body) ∈ available_spiders
    /\ id = _generate_job_id now uuid4
              (spider (default CrawlRequest_default body))
    /\ st = "pending".
Proof.
  unfold registry_after.
  assert (forall jobs : registry,
            foldl (fun jobs r => serve r jobs) jobs history !! id = Some st ->
            jobs !! id = Some st
            \/ exists now uuid4 body,
                 In (POST_crawl now uuid4 body) history
                 /\ spider (default CrawlRequest_default body) ∈ available_spiders
                 /\ id = _generate_job_id now uuid4
                           (spider (default CrawlRequest_default body))
                 /\ st = "pending") as Hgen.
  { induction history as [|r history IH]; intros jobs Hlook; simpl in *; [auto |].
    destruct (IH _ Hlook) as [Hserved | (now & u & body & Hin & Hrest)].
    - destruct (serve_lookup _ _ _ _ Hserved)
        as [Hold | (now & u & body & -> & Hrest)]; [auto |].
      right. exists now, u, body. auto.
    - right. exists now, u, body. auto. }
  intros Hlook. destruct (Hgen ∅ Hlook) as [Hempty | Hposted]; [| exact Hposted].
  now rewrite lookup_empty in Hempty.
Qed.

Lemma registry_holds_generated_ids_witness :
  registry_after [POST_crawl new_year_noon some_uuid (Some eventbrite_request)]
    !! "crawl_20240101_123456_eventbrite_1234abcd" = Some "pending"
  /\ exists now uuid4 body,
       In (POST_crawl now uuid4 body)
         [POST_crawl new_year_noon some_uuid (Some eventbrite_request)]
       /\ spider (default CrawlRequest_default body) ∈ available_spiders
       /\ "crawl_20240101_123456_eventbrite_1234abcd"
          = _generate_job_id now uuid4
              (spider (default CrawlRequest_default body))
       /\ "pending" = "pending".
Proof.
  assert (registry_after
            [POST_crawl new_year_noon some_uuid (Some eventbrite_request)]
            !! "crawl_20240101_123456_eventbrite_1234abcd" = Some "pending")
    as Hlook by (vm_compute; reflexivity).
  split; [exact Hlook |].
  exact (registry_holds_generated_ids _ _ _ Hlook).
Defined.

(** X10: the registry never holds more jobs than submissions were made. *)
Theorem registry_size_bounded (history : list request) :
  (size (registry_after history) <= length (List.filter is_submission history))%nat.
Proof.
  unfold registry_after.
  assert (forall jobs : registry,
            (size (foldl (fun jobs r => serve r jobs) jobs history)
             <= size jobs + length (List.filter is_submission history))%nat)
    as Hbound.
  { induction history as [|r history IH]; intros jobs; simpl; [lia |].
    etransitivity; [apply IH |].
    destruct r as [now uuid4 body | other | | other]; simpl; try lia.
    - unfold trigger_crawl. case_bool_decide; simpl; [| lia].
      rewrite map_size_insert. destruct (jobs !! _); unfold id; lia.
    - unfold cancel_crawl_job. destruct (jobs !! other) eqn:Hlook; simpl; [| lia].
      rewrite map_size_delete_Some by eauto. lia. }
  specialize (Hbound ∅). now rewrite map_size_empty in Hbound.
Qed.

(** ** More on the event queries *)

Lemma length_omap_le {A B} (f : A -> option B) (l : list A) :
  (length (omap f l) <= length l)%nat.
Proof.
  induction l as [|x l IH]; csimpl; [lia |].
  destruct (f x); simpl; lia.
Qed.

Lemma length_omap_all {A B} (f : A -> option B) (l : list A) :
  (forall x, In x l -> is_Some (f x)) -> length (omap f l) = length l.
Proof.
  induction l as [|x l IH]; intros Hall; csimpl; [reflexivity |].
  destruct (Hall x (or_introl eq_refl)) as [y ->]. simpl.
  f_equal. apply IH. intros; apply Hall; now right.
Qed.

Section EventQueries.

Context {value EventOutT json : Type}.
Context (store_accepts : filter_dict -> bool).
Context (doc_matches : filter_dict -> gmap string value -> bool).
Context (EventOut : gmap string value -> EventOutT + string).
Context (model_dump : EventOutT -> json).

(** X11: a page never holds more events than [limit], nor more than the matching
    records left after [skip]; it holds exactly that many when every stored
    record passes validation. *)
Theorem get_events_page_size (coll : list (gmap string value)) (limit skip : Z)
    (city country event_type organizer : option string)
    (resp : JSONResponse json) :
  get_events store_accepts doc_matches EventOut model_dump coll limit skip
    city country event_type organizer = Ok resp ->
  let total :=
    length (List.filter
              (doc_matches (build_filters city country event_type organizer))
              coll) in
  (length (content_events resp) <= Z.to_nat limit)%nat
  /\ (length (content_events resp) <= 100)%nat
  /\ (length (content_events resp) <= total - Z.to_nat skip)%nat
  /\ ((forall d, In d coll -> exists m, EventOut (delete "_id" d) = inl m) ->
      length (content_events resp)
      = Nat.min (Z.to_nat limit) (total - Z.to_nat skip)).
Proof.
  intros (Hlimit & Hskip & _ & -> & _)%get_events_answered total.
  unfold total.
  set (matching := List.filter _ coll).
  assert (length (take (Z.to_nat limit) (drop (Z.to_nat skip) matching))
          = Nat.min (Z.to_nat limit) (length matching - Z.to_nat skip))
    as Hpage by now rewrite length_take, length_drop.
  pose proof (length_omap_le (map_event EventOut model_dump)
                (take (Z.to_nat limit) (drop (Z.to_nat skip) matching))) as Hle.
  repeat apply conj; try lia.
  intros Hvalid. rewrite <- Hpage. apply length_omap_all.
  intros d Hd. unfold map_event.
  assert (In d coll) as Hcoll.
  { apply list_elem_of_In in Hd.
    apply subseteq_take, subseteq_drop in Hd.
    apply list_elem_of_In in Hd. unfold matching in Hd.
    now apply filter_In in Hd as [? _]. }
  destruct (Hvalid d Hcoll) as [m ->]. eauto.
Qed.

(** X12: two pages in a row are the one page of both: the events of limit [l1] at
    [skip] followed by those of limit [l2] at [skip + l1] are the events of
    limit [l1 + l2] at [skip]. *)
Theorem get_events_pages_compose (coll : list (gmap string value))
    (l1 l2 skip : Z) (city country event_type organizer : option string)
    (first second both : JSONResponse json) :
  get_events store_accepts doc_matches EventOut model_dump coll l1 skip
    city country event_type organizer = Ok first ->
  get_events store_accepts doc_matches EventOut model_dump coll l2 (skip + l1)
    city country event_type organizer = Ok second ->
  get_events store_accepts doc_matches EventOut model_dump coll (l1 + l2) skip
    city country event_type organizer = Ok both ->
  content_events both = content_events first ++ content_events second.
Proof.
  intros (Hl1 & Hskip & _ & -> & _)%get_events_answered
         (Hl2 & _ & _ & -> & _)%get_events_answered
         (_ & _ & _ & -> & _)%get_events_answered.
  rewrite <- omap_app. f_equal.
  rewrite !Z2Nat.inj_add by lia.
  rewrite <- drop_drop. symmetry. apply take_take_drop.
Qed.

(** X13: when [X-Has-More] is [false], the page holds every matching record after
    [skip] that passes validation. *)
Theorem get_events_last_page (coll : list (gmap string value)) (limit skip : Z)
    (city country event_type organizer : option string)
    (resp : JSONResponse json) :
  get_events store_accepts doc_matches EventOut model_dump coll limit skip
    city country event_type organizer = Ok resp ->
  headers resp !! "X-Has-More" = Some "false" ->
  content_events resp
  = omap (map_event EventOut model_dump)
      (drop (Z.to_nat skip)
         (List.filter
            (doc_matches (build_filters city country event_type organizer))
            coll)).
Proof.
  intros (Hlimit & Hskip & _ & -> & _ & Hmore)%get_events_answered Hfalse.
  rewrite Hmore in Hfalse.
  destruct (_ <? _)%Z eqn:Hlt in Hfalse; [discriminate |].
  apply Z.ltb_ge in Hlt.
  rewrite take_ge; [reflexivity |]. rewrite length_drop. lia.
Qed.

(** X14: the filter dict gets a key for a parameter exactly when the
    parameter is given and is not the empty string: [city], [country] and
    [organizer] as case-insensitive regex conditions on the text as it is,
    [event_type] as a value to compare with; it has no other key. *)
Theorem build_filters_keys (city country event_type organizer : option string) :
  let filters := build_filters city country event_type organizer in
  (forall c, city = Some c -> c <> "" -> filters !! "city" = Some (Regex c "i"))
  /\ (city = None \/ city = Some "" -> filters !! "city" = None)
  /\ (forall c, country = Some c -> c <> "" ->
        filters !! "country" = Some (Regex c "i"))
  /\ (country = None \/ country = Some "" -> filters !! "country" = None)
  /\ (forall t, event_type = Some t -> t <> "" ->
        filters !! "event_type" = Some (Equals t))
  /\ (event_type = None \/ event_type = Some "" ->
        filters !! "event_type" = None)
  /\ (forall o, organizer = Some o -> o <> "" ->
        filters !! "organizer" = Some (Regex o "i"))
  /\ (organizer = None \/ organizer = Some "" -> filters !! "organizer" = None)
  /\ (forall key, is_Some (filters !! key) ->
        key = "city" \/ key = "country" \/ key = "event_type"
        \/ key = "organizer").
Proof.
  unfold build_filters, given.
  destruct city as [[|? ?]|], country as [[|? ?]|], event_type as [[|? ?]|],
    organizer as [[|? ?]|]; cbv zeta;
    (repeat apply conj;
     [ .. | intros key [c Hkey];
            repeat (apply lookup_insert_Some in Hkey
                      as [[<- _] | [_ Hkey]]; [tauto |]);
            now rewrite lookup_empty in Hkey ]);
    intros;
    repeat match goal with H : _ \/ _ |- _ => destruct H end;
    simplify_eq; try congruence;
    repeat first [ rewrite lookup_insert_eq
                 | rewrite lookup_insert_ne by discriminate
                 | rewrite lookup_empty ];
    reflexivity.
Qed.

(** X15: the record [GET /events/{api_id}] answers with is a stored record: one
    matching by [api_id], or, when no stored record matches by [api_id], one
    whose title matches the pattern. *)
Theorem get_event_returns_stored_record (coll : list (gmap string value))
    (api_id : string) (body : json) :
  get_event store_accepts doc_matches EventOut model_dump coll api_id = Ok body ->
  exists event model,
    In event coll
    /\ EventOut (delete "_id" event) = inl model
    /\ body = model_dump model
    /\ (doc_matches {["api_id" := Equals api_id]} event = true
        \/ (doc_matches
              {["title" := Regex (replace_char "-"%char "\s+" api_id) "i"]}
              event = true
            /\ forall other, In other coll ->
                 doc_matches {["api_id" := Equals api_id]} other = false)).
Proof.
  unfold get_event. intros Hbody.
  pose proof (lookup_event_spec store_accepts doc_matches coll api_id) as Hspec.
  cbn zeta in Hspec.
  destruct (lookup_event store_accepts doc_matches coll api_id)
    as [[event|] |]; try discriminate.
  destruct (EventOut (delete "_id" event)) as [model|e] eqn:Hmap;
    [| discriminate].
  injection Hbody as <-. exists event, model.
  assert (forall p, first_match p coll event -> In event coll /\ p event = true)
    as Hfirst.
  { intros p (before & after & -> & Hp & _). split; [| exact Hp].
    apply in_or_app. right. now left. }
  destruct Hspec as (_ & [Hid | (Hnone & _ & Htitle)]).
  - apply Hfirst in Hid as [Hin Hp]. auto.
  - apply Hfirst in Htitle as [Hin Hp]. auto 6.
Qed.

End EventQueries.

(** X16: the regex the title is searched with has no hyphen left, is two
    characters longer for each hyphen of the id, and is the id itself when
    the id has none. *)
Theorem title_pattern_has_no_hyphen (api_id : string) :
  let pattern := replace_char "-"%char "\s+" api_id in
  string_count is_hyphen pattern = 0%nat
  /\ String.length pattern
     = (String.length api_id + 2 * string_count is_hyphen api_id)%nat
  /\ (string_count is_hyphen api_id = 0%nat -> pattern = api_id).
Proof.
  induction api_id as [|c s (IHcount & IHlen & IHsame)]; simpl; [auto |].
  change (Ascii.eqb c "-") with (is_hyphen c).
  destruct (is_hyphen c) eqn:Hc.
  - rewrite !string_app_cons, string_app_nil. simpl.
    repeat apply conj; [assumption | lia | intros; discriminate].
  - simpl. rewrite Hc. simpl.
    repeat apply conj; [assumption | lia |].
    intros Hnone. now rewrite IHsame.
Qed.

Lemma get_events_page_size_witness :
  exists resp,
    get_events accept_all match_all reject_broken id three_events 2 0 None None None None
    = Ok resp
    /\ (length (content_events resp) <= Z.to_nat 2)%nat
    /\ length (content_events resp) = 1%nat.
Proof.
  destruct (get_events accept_all match_all reject_broken id three_events 2 0
              None None None None) as [resp | | |] eqn:Hresp;
    [| vm_compute in Hresp; discriminate ..].
  exists resp. split; [reflexivity |].
  split; [apply (get_events_page_size _ _ _ _ _ _ _ _ _ _ _ _ Hresp) |].
  vm_compute in Hresp. injection Hresp as <-. reflexivity.
Defined.

Lemma get_events_pages_compose_witness :
  exists first second both,
    get_events accept_all match_all reject_broken id three_events 1 0 None None None None
    = Ok first
    /\ get_events accept_all match_all reject_broken id three_events 2 (0 + 1)
         None None None None = Ok second
    /\ get_events accept_all match_all reject_broken id three_events (1 + 2) 0
         None None None None = Ok both
    /\ content_events both = content_events first ++ content_events second.
Proof.
  destruct (get_events accept_all match_all reject_broken id three_events 1 0
              None None None None) as [first | | |] eqn:H1;
    [| vm_compute in H1; discriminate ..].
  destruct (get_events accept_all match_all reject_broken id three_events 2 (0 + 1)
              None None None None) as [second | | |] eqn:H2;
    [| vm_compute in H2; discriminate ..].
  destruct (get_events accept_all match_all reject_broken id three_events (1 + 2) 0
              None None None None) as [both | | |] eqn:H3;
    [| vm_compute in H3; discriminate ..].
  exists first, second, both. repeat split.
  exact (get_events_pages_compose _ _ _ _ _ _ _ _ _ _ _ _ _ _ _ H1 H2 H3).
Defined.

Lemma get_events_last_page_witness :
  exists resp,
    get_events accept_all match_all reject_broken id three_events 5 1 None None None None
    = Ok resp
    /\ headers resp !! "X-Has-More" = Some "false"
    /\ content_events resp
       = omap (map_event reject_broken id)
           (drop (Z.to_nat 1)
              (List.filter (match_all (build_filters None None None None))
                 three_events)).
Proof.
  destruct (get_events accept_all match_all reject_broken id three_events 5 1
              None None None None) as [resp | | |] eqn:Hresp;
    [| vm_compute in Hresp; discriminate ..].
  assert (headers resp !! "X-Has-More" = Some "false") as Hlast.
  { vm_compute in Hresp. injection Hresp as <-. reflexivity. }
  exists resp. split; [reflexivity |]. split; [exact Hlast |].
  exact (get_events_last_page _ _ _ _ _ _ _ _ _ _ _ _ Hresp Hlast).
Defined.

Lemma get_event_returns_stored_record_witness :
  exists body,
    get_event accept_all match_all reject_broken id three_events "rust-meetup" = Ok body
    /\ exists event model,
         In event three_events
         /\ reject_broken (delete "_id" event) = inl model
         /\ body = id model
         /\ (match_all {["api_id" := Equals "rust-meetup"]} event = true
             \/ (match_all
                   {["title" :=
                       Regex (replace_char "-"%char "\s+" "rust-meetup") "i"]}
                   event = true
                 /\ forall other, In other three_events ->
                      match_all {["api_id" := Equals "rust-meetup"]} other
                      = false)).
Proof.
  destruct (get_event accept_all match_all reject_broken id three_events "rust-meetup")
    as [body | | |] eqn:Hbody; [| vm_compute in Hbody; discriminate ..].
  exists body. split; [reflexivity |].
  exact (get_event_returns_stored_record _ _ _ _ _ _ _ Hbody).
Defined.

